(** * Text preparation for LDA topic modelling

    A model of the notebook
    [1.0-ng-Text-Preparation-for-LDA-Topic-Modeling.ipynb]: the
    pre-processing function [clean], the lemmatizer [lemmaspacy], the
    loader loop with its noun extraction, and the writer loop.

    Python strings are sequences of Unicode code points; a code point is a
    binary natural number.  [clean] is written with the patterns of the
    notebook, over a backtracking matcher and the substitution loop of
    Python's [re.sub].  The Unicode classes behind [\w], [\s] and [\d],
    the lower-casing of [str.lower], the NLTK stopword list and the
    pretrained spaCy model are not part of the notebook: they are Section
    variables, and the facts about them that a proof needs are Section
    hypotheses ([unicode_laws], [stopwords_ok]).

    The definitions come first; the proofs start at "Proofs". *)

From Stdlib Require Import NArith ZArith Bool Lia String Ascii.
From stdpp Require Import gmap strings list.

#[local] Unset Default Proof Using.
#[local] Open Scope N_scope.

(** ** Strings *)

Definition char : Type := N.
Definition str : Type := list char.

(** An ASCII literal as a Python string. *)
Definition py (s : string) : str :=
  map N_of_ascii (list_ascii_of_string s).

Definition SPACE : char := 32.
Definition E_ACUTE : char := 233.      (* U+00E9 *)
Definition LETTER_E : char := 101.
Definition UNDERSCORE : char := 95.
Definition APOSTROPHE : char := 39.

Definition between (lo hi c : N) : bool := (lo <=? c) && (c <=? hi).

Definition ascii_digit (c : char) : bool := between 48 57 c.
Definition ascii_upper (c : char) : bool := between 65 90 c.
Definition ascii_lower (c : char) : bool := between 97 122 c.
Definition ascii_letter (c : char) : bool := ascii_upper c || ascii_lower c.
(** The class [[a-zA-Z0-9]]. *)
Definition ascii_alnum (c : char) : bool := ascii_letter c || ascii_digit c.
Definition is_char (a : char) (c : char) : bool := (c =? a).

Fixpoint take_while (p : char -> bool) (s : str) : str :=
  match s with
  | c :: s' => if p c then c :: take_while p s' else []
  | [] => []
  end.

Fixpoint drop_while (p : char -> bool) (s : str) : str :=
  match s with
  | c :: s' => if p c then drop_while p s' else s
  | [] => []
  end.

(** [sep.join(parts)] *)
Fixpoint join (sep : str) (parts : list str) : str :=
  match parts with
  | [] => []
  | [w] => w
  | w :: rest => w ++ sep ++ join sep rest
  end.

(** The maximal runs of characters of class [p], in order; [inrun] says
    that the current position continues a run already listed. *)
Fixpoint runs (p : char -> bool) (inrun : bool) (s : str) : list str :=
  match s with
  | [] => []
  | c :: s' =>
      if p c then
        if inrun then runs p true s' else take_while p s :: runs p true s'
      else runs p false s'
  end.

(** Every maximal run of characters of class [p] becomes [repl]. *)
Fixpoint squeeze (p : char -> bool) (repl : str) (inrun : bool) (s : str)
  : str :=
  match s with
  | [] => []
  | c :: s' =>
      if p c then
        if inrun then squeeze p repl true s'
        else repl ++ squeeze p repl true s'
      else c :: squeeze p repl false s'
  end.

(** Word-wise deletion.  A word is a maximal run of characters of class
    [w]; at the first character of a word the whole word is judged by
    [bad] and then kept or dropped.  With [eat], the white space (class
    [sp]) that directly follows a dropped word is dropped as well. *)
Inductive mode : Type := Outside | Keeping | Dropping | Eating.

Fixpoint edit_words (w sp : char -> bool) (eat : bool) (bad : str -> bool)
    (m : mode) (s : str) : str :=
  match s with
  | [] => []
  | c :: s' =>
      if w c then
        match m with
        | Keeping => c :: edit_words w sp eat bad Keeping s'
        | Dropping => edit_words w sp eat bad Dropping s'
        | Outside | Eating =>
            if bad (take_while w s) then edit_words w sp eat bad Dropping s'
            else c :: edit_words w sp eat bad Keeping s'
        end
      else
        match m with
        | Dropping | Eating =>
            if eat && sp c then edit_words w sp eat bad Eating s'
            else c :: edit_words w sp eat bad Outside s'
        | Outside | Keeping => c :: edit_words w sp eat bad Outside s'
        end
  end.

(** The character before the position reached after reading [m]. *)
Fixpoint prev_after (prev : option char) (m : str) : option char :=
  match m with
  | [] => prev
  | c :: m' => prev_after (Some c) m'
  end.

Definition bounded (hi : option nat) (m : nat) : bool :=
  match hi with Some h => (m <=? h)%nat | None => true end.

(** The length of the run of class [p] that starts the string. *)
Definition span (p : char -> bool) (s : str) : nat := length (take_while p s).

(** What a match of a word pattern takes after the word itself. *)
Definition trail (sp : char -> bool) (eat : bool) (s : str) : nat :=
  if eat then span sp s else 0%nat.

Definition str_eqb (a b : str) : bool := bool_decide (a = b).
Definition mem (x : str) (l : list str) : bool := existsb (str_eqb x) l.

(** The first success among the attempts [f w], in list order. *)
Fixpoint try_words (ws : list str) (f : str -> option nat) : option nat :=
  match ws with
  | [] => None
  | w :: rest =>
      match f w with
      | Some m => Some m
      | None => try_words rest f
      end
  end.

(** [all p s]: every character of [s] is of class [p]. *)
Definition all (p : char -> bool) (s : str) : Prop :=
  Forall (fun c => p c = true) s.

Definition letter_or_blank (c : char) : bool := ascii_letter c || (c =? SPACE).

(** A character that is an ASCII letter if it is a word character at all. *)
Definition simple (is_word : char -> bool) (c : char) : Prop :=
  ascii_letter c = true \/ is_word c = false.

(** ** The fragment of Python's [re] that [clean] uses

    A backtracking matcher in continuation-passing style: a continuation
    receives the character before the current position, the rest of the
    subject and the number of characters consumed so far, and answers with
    the length of the whole match if the rest of the pattern succeeds. *)

Section Regex.
Variable is_word : char -> bool.         (* \w *)

Inductive regex : Type :=
| Eps                                             (* empty pattern *)
| Chr (p : char -> bool)                          (* one character of a class *)
| Lit (w : str)                                   (* a literal word *)
| Rep (p : char -> bool) (lo : nat) (hi : option nat)
                                                  (* greedy p{lo,hi}; + is {1,}, * is {0,} *)
| Bnd                                             (* \b *)
| Seq (a b : regex)
| Alt (a b : regex).

Definition cont : Type := option char -> str -> nat -> option nat.

Definition word_here (prev : option char) : bool :=
  match prev with Some c => is_word c | None => false end.
Definition word_next (s : str) : bool :=
  match s with c :: _ => is_word c | [] => false end.

(** [\b]: exactly one of the two neighbours is a word character; the ends
    of the subject count as non-word. *)
Definition at_boundary (prev : option char) (s : str) : bool :=
  xorb (word_here prev) (word_next s).

Fixpoint lit (w : str) (prev : option char) (s : str) (n : nat) (k : cont)
  : option nat :=
  match w with
  | [] => k prev s n
  | c :: w' =>
      match s with
      | d :: s' => if (d =? c) then lit w' (Some d) s' (S n) k else None
      | [] => None
      end
  end.

Definition below (hi : option nat) (i : nat) : bool :=
  match hi with Some h => (i <? h)%nat | None => true end.

(** Greedy repetition: take one more character when allowed, and fall
    back to stopping here (if [lo] are taken) when the longer attempt
    fails. *)
Fixpoint rep (p : char -> bool) (lo : nat) (hi : option nat) (i : nat)
    (prev : option char) (s : str) (n : nat) (k : cont) {struct s}
  : option nat :=
  let stop := if (lo <=? i)%nat then k prev s n else None in
  match s with
  | c :: s' =>
      if p c && below hi i then
        match rep p lo hi (S i) (Some c) s' (S n) k with
        | Some r => Some r
        | None => stop
        end
      else stop
  | [] => stop
  end.

Fixpoint run (r : regex) (prev : option char) (s : str) (n : nat) (k : cont)
  : option nat :=
  match r with
  | Eps => k prev s n
  | Chr p =>
      match s with
      | c :: s' => if p c then k (Some c) s' (S n) else None
      | [] => None
      end
  | Lit w => lit w prev s n k
  | Rep p lo hi => rep p lo hi 0 prev s n k
  | Bnd => if at_boundary prev s then k prev s n else None
  | Seq a b => run a prev s n (fun prev' s' n' => run b prev' s' n' k)
  | Alt a b =>
      match run a prev s n k with
      | Some m => Some m
      | None => run b prev s n k
      end
  end.

(** The last continuation: any match is accepted, except an empty one
    when the search has to advance. *)
Definition accept (must_advance : bool) : cont :=
  fun _ _ n => if must_advance && (n =? 0)%nat then None else Some n.

(** One attempt at the current position; the answer is the match length. *)
Definition match_at (r : regex) (prev : option char) (s : str)
    (must_advance : bool) : option nat :=
  run r prev s 0 (accept must_advance).

(** [re.sub(r, repl, s)] from the current position on ([skip] characters
    of a match are still to be dropped).  Matches are leftmost and do not
    overlap; an empty match is replaced too, and the next match at the
    same position must then be non-empty (Python 3.7). *)
Fixpoint sub_from (r : regex) (repl : str) (prev : option char) (s : str)
    (skip : nat) {struct s} : str :=
  match skip with
  | S k =>
      match s with
      | c :: s' => sub_from r repl (Some c) s' k
      | [] => []
      end
  | O =>
      let advance :=
        match s with
        | c :: s' => c :: sub_from r repl (Some c) s' 0
        | [] => []
        end in
      let consume := fun n : nat =>
        match s with
        | c :: s' => sub_from r repl (Some c) s' n
        | [] => []
        end in
      match match_at r prev s false with
      | None => advance
      | Some (S n) => repl ++ consume n
      | Some O =>
          repl ++ match match_at r prev s true with
                  | Some (S n) => repl ++ consume n
                  | _ => advance
                  end
      end
  end.

Definition re_sub (r : regex) (repl : str) (s : str) : str :=
  sub_from r repl None s 0.

(** ['|'.join(words)] read as a pattern: the alternatives in list order;
    the empty list gives the empty pattern. *)
Fixpoint alternatives (words : list str) : regex :=
  match words with
  | [] => Eps
  | [w] => Lit w
  | w :: rest => Alt (Lit w) (alternatives rest)
  end.
End Regex.

(** ** The pre-processing function [clean] *)

Section Cleaner.
Variable is_word : char -> bool.         (* \w *)
Variable is_space : char -> bool.        (* \s and str.isspace *)
Variable is_digit : char -> bool.        (* \d *)
Variable stopwords : list str.           (* stopwords.words('english') *)

Definition non_word (c : char) : bool := negb (is_word c).
Definition non_alnum (c : char) : bool := negb (ascii_alnum c).

Definition plus (p : char -> bool) : regex := Rep p 1 None.
Definition star (p : char -> bool) : regex := Rep p 0 None.

(** [(\W| +)] *)
Definition re_nonword : regex := Alt (Chr non_word) (plus (is_char SPACE)).
(** [\s+] *)
Definition re_spaces : regex := plus is_space.
(** [\b\d+\b] *)
Definition re_number : regex := Seq Bnd (Seq (plus is_digit) Bnd).
(** [\d+] *)
Definition re_digits : regex := plus is_digit.
(** [[^a-zA-Z0-9]+] *)
Definition re_special : regex := plus non_alnum.
(** [\b\w{1,2}\b] *)
Definition re_short : regex := Seq Bnd (Seq (Rep is_word 1 (Some 2%nat)) Bnd).
(** [\b(w1|...|wn)\b\s*] *)
Definition re_stopwords : regex :=
  Seq Bnd (Seq (alternatives stopwords) (Seq Bnd (star is_space))).
(** [ +] *)
Definition re_blanks : regex := plus (is_char SPACE).

(** [s.replace(a, b)] for one-character [a] and [b]. *)
Definition replace_char (a b : char) (s : str) : str :=
  map (fun c => if (c =? a) then b else c) s.

(** [s.strip()]: leading, then trailing white space is dropped. *)
Definition lstrip (s : str) : str := drop_while is_space s.
Fixpoint rstrip (s : str) : str :=
  match s with
  | [] => []
  | c :: s' =>
      match rstrip s' with
      | [] => if is_space c then [] else [c]
      | r => c :: r
      end
  end.
Definition strip (s : str) : str := rstrip (lstrip s).

(** The first six assignments of [clean]. *)
Definition clean_front (mystr : str) : str :=
  let my_new_str := re_sub is_word re_nonword [SPACE] mystr in
  let my_new_str := re_sub is_word re_spaces [SPACE] my_new_str in
  let my_new_str := re_sub is_word re_number [] my_new_str in
  let my_new_str := re_sub is_word re_digits [] my_new_str in
  let my_new_str := replace_char E_ACUTE LETTER_E my_new_str in
  re_sub is_word re_special [SPACE] my_new_str.

Definition clean (mystr : str) : str :=
  let my_new_str := re_sub is_word re_nonword [SPACE] mystr in
  let my_new_str := re_sub is_word re_spaces [SPACE] my_new_str in
  let my_new_str := re_sub is_word re_number [] my_new_str in
  let my_new_str := re_sub is_word re_digits [] my_new_str in
  let my_new_str := replace_char E_ACUTE LETTER_E my_new_str in
  let my_new_str := re_sub is_word re_special [SPACE] my_new_str in
  let my_new_str := re_sub is_word re_short [] my_new_str in
  let my_new_str := re_sub is_word re_stopwords [] my_new_str in
  let my_new_str := strip my_new_str in
  let my_new_str := re_sub is_word re_blanks [SPACE] my_new_str in
  my_new_str.
End Cleaner.

(** ** What the proofs assume of the Unicode classes and of the stopwords

    All of these are facts of Python's Unicode database: on ASCII, [\w] is
    [[a-zA-Z0-9_]] and [\d] is [[0-9]]; the space is white space; no white
    space is a word character; every decimal digit is a word character. *)
Record unicode_laws (is_word is_space is_digit : char -> bool) : Prop := {
  word_ascii : forall c, c < 128 ->
    is_word c = ascii_alnum c || (c =? UNDERSCORE);
  digit_ascii : forall c, c < 128 -> is_digit c = ascii_digit c;
  space_blank : is_space SPACE = true;
  space_not_word : forall c, is_space c = true -> is_word c = false;
  digit_word : forall c, is_digit c = true -> is_word c = true
}.

(** A stopword is a non-empty word of lower-case letters and apostrophes
    (so that it stands for itself in a pattern). *)
Definition stopword_ok (w : str) : bool :=
  negb (bool_decide (w = []))
  && forallb (fun c => ascii_lower c || (c =? APOSTROPHE)) w.

(** [s.split()]: the maximal runs of characters that are not white space. *)
Definition split_ws (is_space : char -> bool) (s : str) : list str :=
  runs (fun c => negb (is_space c)) false s.

(** What section 8 promises of the cleaner's output: no digit, nothing but
    lower-case letters and spaces, no token shorter than three. *)
Definition cleaner_output_ok (is_space is_digit : char -> bool) (out : str)
  : Prop :=
  Forall (fun c => is_digit c = false) out
  /\ Forall (fun c => ascii_lower c = true \/ c = SPACE) out
  /\ Forall (fun w => (3 <= length w)%nat) (split_ws is_space out).

(** [\w] on ASCII. *)
Definition ascii_word (c : char) : bool := ascii_alnum c || (c =? UNDERSCORE).

(** Every piece of a stopword (the stopword cut at its apostrophes) is
    itself dropped by the cleaner: it is short or a stopword. *)
Definition stopwords_closed (ws : list str) : bool :=
  forallb (fun w =>
             forallb (fun x => (length x <=? 2)%nat || mem x ws)
                     (runs ascii_word false w)) ws.

Definition stopwords_ok (ws : list str) : bool :=
  negb (bool_decide (ws = [])) && forallb stopword_ok ws.

(** ** A concrete run-time environment

    The classes of the code points below U+0100 as Python's Unicode
    database gives them; this instance classes every higher code point as
    a symbol.  It serves to evaluate the definitions on concrete inputs. *)

Definition latin1_word (c : char) : bool :=
  ascii_alnum c || (c =? UNDERSCORE) || (c =? 170) || between 178 179 c
  || (c =? 181) || between 185 186 c || between 188 190 c
  || between 192 214 c || between 216 246 c || between 248 255 c.

Definition latin1_space (c : char) : bool :=
  between 9 13 c || between 28 32 c || (c =? 133) || (c =? 160).

Definition latin1_digit (c : char) : bool := ascii_digit c.

(** The English stopword list of NLTK's [stopwords] corpus (179 words). *)
Definition nltk_english : list str := map py
  ["i"; "me"; "my"; "myself"; "we"; "our"; "ours"; "ourselves"; "you";
   "you're"; "you've"; "you'll"; "you'd"; "your"; "yours"; "yourself";
   "yourselves"; "he"; "him"; "his"; "himself"; "she"; "she's"; "her";
   "hers"; "herself"; "it"; "it's"; "its"; "itself"; "they"; "them";
   "their"; "theirs"; "themselves"; "what"; "which"; "who"; "whom"; "this";
   "that"; "that'll"; "these"; "those"; "am"; "is"; "are"; "was"; "were";
   "be"; "been"; "being"; "have"; "has"; "had"; "having"; "do"; "does";
   "did"; "doing"; "a"; "an"; "the"; "and"; "but"; "if"; "or"; "because";
   "as"; "until"; "while"; "of"; "at"; "by"; "for"; "with"; "about";
   "against"; "between"; "into"; "through"; "during"; "before"; "after";
   "above"; "below"; "to"; "from"; "up"; "down"; "in"; "out"; "on"; "off";
   "over"; "under"; "again"; "further"; "then"; "once"; "here"; "there";
   "when"; "where"; "why"; "how"; "all"; "any"; "both"; "each"; "few";
   "more"; "most"; "other"; "some"; "such"; "no"; "nor"; "not"; "only";
   "own"; "same"; "so"; "than"; "too"; "very"; "s"; "t"; "can"; "will";
   "just"; "don"; "don't"; "should"; "should've"; "now"; "d"; "ll"; "m";
   "o"; "re"; "ve"; "y"; "ain"; "aren"; "aren't"; "couldn"; "couldn't";
   "didn"; "didn't"; "doesn"; "doesn't"; "hadn"; "hadn't"; "hasn";
   "hasn't"; "haven"; "haven't"; "isn"; "isn't"; "ma"; "mightn";
   "mightn't"; "mustn"; "mustn't"; "needn"; "needn't"; "shan"; "shan't";
   "shouldn"; "shouldn't"; "wasn"; "wasn't"; "weren"; "weren't"; "won";
   "won't"; "wouldn"; "wouldn't"]%string.

Definition clean_latin1 : str -> str :=
  clean latin1_word latin1_space latin1_digit nltk_english.

(** ** The nine rules of the cleaner, as the specification words them

    Each rule is a function on strings of its own; [spec_clean] applies
    them in the listed order. *)

Section CleanerRules.
Variable is_word : char -> bool.
Variable is_space : char -> bool.
Variable is_digit : char -> bool.
Variable stopwords : list str.

(** A token is a maximal run of word characters. *)
Definition tokens (s : str) : list str := runs is_word false s.
Definition remove_tokens (bad : str -> bool) (s : str) : str :=
  edit_words is_word is_space false bad Outside s.

Definition numeric (w : str) : bool := forallb is_digit w.
Definition short (w : str) : bool := (length w <=? 2)%nat.
Definition is_stopword (w : str) : bool := mem w stopwords.

(** 1. Replace any run of non-word characters or multiple spaces with a
    single space. *)
Definition rule1 (s : str) : str :=
  squeeze (fun c => negb (is_word c) || (c =? SPACE)) [SPACE] false s.
(** 2. Collapse all whitespace runs to a single space. *)
Definition rule2 (s : str) : str := squeeze is_space [SPACE] false s.
(** 3. Remove standalone numeric tokens. *)
Definition rule3 (s : str) : str := remove_tokens numeric s.
(** 4. Remove any remaining digit sequences. *)
Definition rule4 (s : str) : str := List.filter (fun c => negb (is_digit c)) s.
(** 5. Normalize the character e-acute to e. *)
Definition rule5 (s : str) : str :=
  map (fun c => if (c =? E_ACUTE) then LETTER_E else c) s.
(** 6. Remove any character outside the ASCII letter/digit set,
    collapsing removed runs to a single space. *)
Definition rule6 (s : str) : str :=
  squeeze (fun c => negb (ascii_alnum c)) [SPACE] false s.
(** 7. Remove tokens of length 1-2 characters. *)
Definition rule7 (s : str) : str := remove_tokens short s.
(** 8. Remove stopwords (whole-word match). *)
Definition rule8 (s : str) : str := remove_tokens is_stopword s.
(** 9. Trim leading/trailing whitespace; collapse internal whitespace
    runs to single spaces. *)
Definition rule9 (s : str) : str :=
  squeeze is_space [SPACE] false (strip is_space s).

Definition spec_clean (s : str) : str :=
  rule9 (rule8 (rule7 (rule6 (rule5 (rule4 (rule3 (rule2 (rule1 s)))))))).

(** What survives the cleaner, token by token. *)
Definition kept (w : str) : bool := negb (short w) && negb (is_stopword w).
End CleanerRules.

(** ** spaCy, as far as the notebook uses it *)

Inductive exn : Type :=
| OSError              (* the entry cannot be opened as a file *)
| UnicodeDecodeError   (* the bytes are not UTF-8 *)
| ValueError           (* spaCy E088: text longer than max_length *)
| IndexError.

Inductive result (A : Type) : Type :=
| Ok (a : A)
| Raise (e : exn).
Arguments Ok {A} a.
Arguments Raise {A} e.

#[global] Instance result_ret : MRet result := fun _ a => Ok a.
#[global] Instance result_bind : MBind result := fun _ _ f m =>
  match m with
  | Ok a => f a
  | Raise e => Raise e
  end.

Record Token : Type := { lemma_ : str }.
Record Span : Type := { text : str }.
Record Doc : Type := { doc_tokens : list Token; noun_chunks : list Span }.

(** A loaded pipeline: the [max_length] attribute and the analysis that the
    pretrained model computes for a text. *)
Record Language : Type := { max_length : N; analyse : str -> Doc }.

Definition set_max_length (n : N) (nlp : Language) : Language :=
  {| max_length := n; analyse := analyse nlp |}.

(** [len(s)] *)
Definition len (s : str) : N := N.of_nat (length s).

(** Modelled from the spec: the call [nlp(text)] belongs to spaCy, which is
    not in the notebook.  Section 4.2 says that a text longer than the
    configured maximum raises a hard failure (the comment of the first
    code cell says the same of [nlp.max_length]); any other text is
    analysed whole. *)
Definition call (nlp : Language) (text : str) : result Doc :=
  if (max_length nlp <? len text) then Raise ValueError
  else Ok (analyse nlp text).

(** [open(name, 'w')] and [write(doc)] on the output directory. *)
Definition write (out : gmap string str) (p : string * str)
  : gmap string str :=
  <[p.1 := p.2]> out.

(** ** The notebook's cells *)

(** An entry of the input directory, as [codecs.open(.., encoding='utf-8')]
    and [read()] see it. *)
Inductive entry : Type :=
| TextFile (content : str)   (* a file whose bytes decode to [content] *)
| Undecodable                (* a file whose bytes are not UTF-8 *)
| Unopenable.                (* a sub-directory, or a file that cannot be opened *)

(** The two global lists of the notebook. *)
Record cells : Type := { list_documents : list str; file_names : list string }.

(** The lists after [names] and [docs] have been appended. *)
Definition grown (st : cells) (names : list string) (docs : list str) : cells :=
  {| list_documents := list_documents st ++ docs;
     file_names := file_names st ++ names |}.

Section Notebook.
Variable is_word : char -> bool.
Variable is_space : char -> bool.
Variable is_digit : char -> bool.
Variable stopwords : list str.
Variable lower : str -> str.               (* str.lower *)
Variable en_core_web_sm : str -> Doc.      (* the pretrained model *)
Variable writable : string -> bool.        (* open(dir + '/' + name, 'w') succeeds *)

(** [en_core_web_sm.load()]; spaCy's default ceiling is 10**6. *)
Definition en_core_web_sm_load : Language :=
  {| max_length := 1000000; analyse := en_core_web_sm |}.

(** The global [nlp] of the first code cell. *)
Definition nlp : Language := set_max_length 6000000 en_core_web_sm_load.

Definition lemmaspacy (my_new_str : str) : result str :=
  let nlp := set_max_length 60000000 en_core_web_sm_load in
  let sentence := my_new_str in
  doc ← call nlp sentence;
  mret (join [SPACE] (map lemma_ (doc_tokens doc))).

(** The noun extraction of the loader loop (the second parse and the
    loop over [noun_chunks]). *)
Definition extract_nouns (input_str : str) : result str :=
  let list_element := [] in
  input_str ← call nlp input_str;
  mret (fold_left (fun list_element chunk =>
                     list_element ++ [SPACE] ++ text chunk)
                  (noun_chunks input_str) list_element).

(** What the loader loop does with the text read from one file. *)
Definition process (raw : str) : result str :=
  let input_str := lower raw in
  let input_str := clean is_word is_space is_digit stopwords input_str in
  input_str ← lemmaspacy input_str;
  extract_nouns input_str.

(** One iteration of the loader loop.  The lists are updated in place, so
    an exception leaves behind what was appended before it. *)
Definition load_one (st : cells) (file : string) (e : entry)
  : cells * result unit :=
  match e with
  | Unopenable => (st, Raise OSError)
  | Undecodable =>
      ({| list_documents := list_documents st;
          file_names := file_names st ++ [file] |},
       Raise UnicodeDecodeError)
  | TextFile raw =>
      let st1 := {| list_documents := list_documents st;
                    file_names := file_names st ++ [file] |} in
      match process raw with
      | Raise x => (st1, Raise x)
      | Ok list_element =>
          ({| list_documents := list_documents st1 ++ [list_element];
              file_names := file_names st1 |}, Ok ())
      end
  end.

(** [for file in os.listdir(text_files_dir): ...] *)
Fixpoint loader_loop (listing : list (string * entry)) (st : cells)
  : cells * result unit :=
  match listing with
  | [] => (st, Ok ())
  | (file, e) :: rest =>
      match load_one st file e with
      | (st', Ok _) => loader_loop rest st'
      | (st', Raise x) => (st', Raise x)
      end
  end.

Definition fresh : cells := {| list_documents := []; file_names := [] |}.

Definition loader (listing : list (string * entry)) : cells * result unit :=
  loader_loop listing fresh.

(** [for i in range(len(list_documents)): ...]; the output directory maps
    a file name to the text of the file.  [file_names[i]] is evaluated
    first; [open(.., 'w')] then raises [OSError] when the file cannot be
    opened for writing (a missing or unwritable output directory, say),
    and creates or empties it otherwise; the document is written last,
    and writing into a file that was opened is taken to succeed.  The
    files written before an exception stay. *)
Fixpoint writer_loop (range : list nat) (st : cells)
    (out : gmap string str) : gmap string str * result unit :=
  match range with
  | [] => (out, Ok ())
  | i :: rest =>
      match file_names st !! i with
      | None => (out, Raise IndexError)
      | Some name =>
          if writable name then
            match list_documents st !! i with
            | None => (<[name := []]> out, Raise IndexError)
            | Some doc => writer_loop rest st (<[name := doc]> out)
            end
          else (out, Raise OSError)
      end
  end.

Definition writer (st : cells) (out : gmap string str)
  : gmap string str * result unit :=
  writer_loop (seq 0 (length (list_documents st))) st out.

(** The entry is a text file and its text goes through the pipeline
    without an exception, giving [d]. *)
Definition processed (e : string * entry) (d : str) : Prop :=
  exists raw, e.2 = TextFile raw /\ process raw = Ok d.

(** The loader cell, then the writer cell; an exception stops the run. *)
Definition notebook (listing : list (string * entry))
    (out : gmap string str) : gmap string str * result unit :=
  match loader listing with
  | (st, Ok _) => writer st out
  | (_, Raise x) => (out, Raise x)
  end.
End Notebook.

(** A stand-in for the pretrained model, to evaluate the loops on concrete
    inputs: every space-separated word is a token and its own lemma, and
    every token is a noun chunk. *)
Definition toy_model (s : str) : Doc :=
  let ws := runs (fun c => negb (c =? SPACE)) false s in
  {| doc_tokens := map (fun w => {| lemma_ := w |}) ws;
     noun_chunks := map (fun w => {| text := w |}) ws |}.

Definition LETTER_A : char := 97.

(** A text of 60,000,001 letters. *)
Definition long_text : str := replicate (N.to_nat 60000001) LETTER_A.

Definition toy_lower (s : str) : str :=
  map (fun c => if ascii_upper c then c + 32 else c) s.

(** A small input directory, with an entry that is not a [.txt] file and an
    empty file, and the output directory the notebook makes of it. *)
Definition sample_listing : list (string * entry) :=
  [("doc1.txt"%string, TextFile (py "The Plants are Growing rapidly in 2021."));
   ("notes.md"%string, TextFile (py "123 !!! 456"));
   ("empty.txt"%string, TextFile [])].

Definition sample_cells : cells :=
  {| list_documents := [py " plants growing rapidly"; []; []];
     file_names := ["doc1.txt"; "notes.md"; "empty.txt"]%string |}.

Definition sample_output : gmap string str :=
  foldl write ∅
    [("doc1.txt"%string, py " plants growing rapidly");
     ("notes.md"%string, []); ("empty.txt"%string, [])].

(** An output directory in which every file can be opened for writing,
    and one that is missing. *)
Definition writable_dir : string -> bool := fun _ => true.
Definition missing_dir : string -> bool := fun _ => false.

Definition toy_notebook :=
  notebook latin1_word latin1_space latin1_digit nltk_english toy_lower
    toy_model writable_dir.

Definition toy_loader :=
  loader latin1_word latin1_space latin1_digit nltk_english toy_lower
    toy_model.

(** ** The cleaner without patterns

    The words that [clean] judges: non-word characters become blanks, the
    digits are deleted, e-acute becomes e, and the words are the maximal
    runs of ASCII letters of what is left. *)
Definition blank_non_word (is_word : char -> bool) (s : str) : str :=
  map (fun c => if is_word c then c else SPACE) s.

Definition drop_digits (is_digit : char -> bool) (s : str) : str :=
  List.filter (fun c => negb (is_digit c)) s.

Definition letter_words (is_word is_digit : char -> bool) (s : str)
  : list str :=
  runs ascii_letter false
    (replace_char E_ACUTE LETTER_E
       (drop_digits is_digit (blank_non_word is_word s))).

(** A word that the cleaner leaves in its output. *)
Definition kept_word (stopwords : list str) (w : str) : Prop :=
  all ascii_letter w /\ (3 <= length w)%nat /\ ~ In w stopwords.

(** Kept words, joined by single spaces. *)
Definition normalized (is_space : char -> bool) (stopwords : list str)
    (s : str) : Prop :=
  s = join [SPACE] (split_ws is_space s)
  /\ Forall (kept_word stopwords) (split_ws is_space s).

(** The stopwords that a word of the cleaner's seventh step can still be:
    those made of ASCII letters only, three or more. *)
Definition live_stopwords (stopwords : list str) : list str :=
  List.filter (fun w => forallb ascii_letter w && negb (short w)) stopwords.

(** The names that the writer loop opens before the first one that cannot
    be opened for writing, and how the loop ends. *)
Fixpoint writable_prefix (writable : string -> bool) (names : list string)
  : list string :=
  match names with
  | [] => []
  | name :: rest =>
      if writable name then name :: writable_prefix writable rest else []
  end.

Definition writer_outcome (writable : string -> bool) (names : list string)
    (docs : list str) : result unit :=
  if (length docs <=? length (writable_prefix writable names))%nat then Ok ()
  else if (length (writable_prefix writable names) <? length names)%nat
       then Raise OSError
       else Raise IndexError.

(** A text of 6,000,001 letters. *)
Definition mid_text : str := replicate (N.to_nat 6000001) LETTER_A.

(** A directory with a file in it that is not UTF-8. *)
Definition broken_listing : list (string * entry) :=
  [("doc1.txt"%string, TextFile (py "The Plants are Growing rapidly in 2021."));
   ("bin.dat"%string, Undecodable);
   ("notes.md"%string, TextFile (py "123 !!! 456"))].

(** The two lists that the loader cell leaves behind on it. *)
Definition broken_cells : cells :=
  {| list_documents := [py " plants growing rapidly"];
     file_names := ["doc1.txt"; "bin.dat"]%string |}.

(** * Proofs *)

(** ** The matcher *)

Section RegexFacts.
Variable is_word : char -> bool.


Lemma sub_from_skip r repl m : forall prev rest,
  sub_from is_word r repl prev (m ++ rest) (length m)
  = sub_from is_word r repl (prev_after prev m) rest 0.
Proof.
  induction m as [|c m IH]; intros prev rest; [reflexivity|].
  simpl. apply IH.
Qed.

Lemma sub_from_nomatch r repl prev s :
  match_at is_word r prev s false = None ->
  sub_from is_word r repl prev s 0
  = match s with [] => [] | c :: s' => c :: sub_from is_word r repl (Some c) s' 0 end.
Proof. intros H. destruct s; simpl; rewrite H; reflexivity. Qed.

Lemma sub_from_match r repl prev s n :
  match_at is_word r prev s false = Some (S n) ->
  sub_from is_word r repl prev s 0
  = repl ++ match s with [] => [] | c :: s' => sub_from is_word r repl (Some c) s' n end.
Proof. intros H. destruct s; simpl; rewrite H; reflexivity. Qed.

Lemma sub_from_drop r repl prev c s n :
  sub_from is_word r repl prev (c :: s) (S n) = sub_from is_word r repl (Some c) s n.
Proof. reflexivity. Qed.

(** Whatever the pattern, the result is made of characters of the subject
    and of the replacement. *)
Lemma sub_from_Forall (P : char -> Prop) r repl :
  Forall P repl ->
  forall s prev skip, Forall P s -> Forall P (sub_from is_word r repl prev s skip).
Proof.
  intros Hr s. induction s as [|c s IH]; intros prev skip Hs.
  - destruct skip; simpl; [|constructor].
    destruct (match_at is_word r prev [] false) as [[|n]|]; simpl;
      rewrite ?app_nil_r; auto.
    destruct (match_at is_word r prev [] true) as [[|n]|]; simpl;
      rewrite ?app_nil_r; auto; apply Forall_app; auto.
  - inversion Hs as [|? ? Hc Hs']; subst.
    destruct skip; simpl; [|apply IH; assumption].
    destruct (match_at is_word r prev (c :: s) false) as [[|n]|]; simpl.
    + apply Forall_app; split; [assumption|].
      destruct (match_at is_word r prev (c :: s) true) as [[|n]|]; simpl.
      * constructor; auto.
      * apply Forall_app; split; auto.
      * constructor; auto.
    + apply Forall_app; split; auto.
    + constructor; auto.
Qed.

(** A greedy repetition that ends the pattern takes the whole run. *)
Lemma rep_accept p lo : forall s i prev n,
  rep p lo None i prev s n (accept false)
  = if (lo <=? i + length (take_while p s))%nat
    then Some (n + length (take_while p s))%nat else None.
Proof.
  induction s as [|c s IH]; intros i prev n; simpl.
  - rewrite !Nat.add_0_r. reflexivity.
  - destruct (p c); simpl.
    + rewrite IH. rewrite !Nat.add_succ_r. simpl.
      destruct (lo <=? S (i + length (take_while p s)))%nat eqn:E; [reflexivity|].
      apply Nat.leb_gt in E.
      destruct (lo <=? i)%nat eqn:E'; [|reflexivity].
      apply Nat.leb_le in E'. lia.
    + rewrite !Nat.add_0_r. reflexivity.
Qed.

Lemma below_bounded hi i : below hi i = true -> bounded hi (S i) = true.
Proof.
  destruct hi as [h|]; unfold below, bounded; [|reflexivity].
  rewrite Nat.ltb_lt, Nat.leb_le. lia.
Qed.

Lemma not_below_bounded hi i j :
  below hi i = false -> bounded hi (i + S j) = false.
Proof.
  destruct hi as [h|]; unfold below, bounded; [|discriminate].
  rewrite Nat.ltb_ge, Nat.leb_gt. lia.
Qed.

Lemma boundary_inside prev c s :
  is_word c = true -> word_here is_word prev = true ->
  at_boundary is_word prev (c :: s) = false.
Proof.
  intros Hc Hp. unfold at_boundary. simpl. rewrite Hc, Hp.
  reflexivity.
Qed.

(** A greedy repetition of word characters that is followed by [\b]
    succeeds only at the end of the whole run. *)
Lemma rep_boundary p lo hi (k : cont) :
  (forall c, p c = true -> is_word c = true) ->
  forall s i prev n,
    word_here is_word prev = true \/ (i < lo)%nat ->
    bounded hi i = true ->
    rep p lo hi i prev s n
      (fun prev' s' n' => if at_boundary is_word prev' s' then k prev' s' n' else None)
    = if (lo <=? i + length (take_while p s))%nat
         && bounded hi (i + length (take_while p s))
         && negb (word_next is_word (drop (length (take_while p s)) s))
      then k (prev_after prev (take (length (take_while p s)) s))
             (drop (length (take_while p s)) s)
             (n + length (take_while p s))%nat
      else None.
Proof.
  intros Hp.
  assert (Hstop : forall i prev s n,
    word_here is_word prev = true \/ (i < lo)%nat ->
    (if (lo <=? i)%nat
     then (if at_boundary is_word prev s then k prev s n else None) else None)
    = if (lo <=? i)%nat && negb (word_next is_word s) then k prev s n else None).
  { intros i prev s n [Hw | Hlt].
    - unfold at_boundary. rewrite Hw.
      destruct (lo <=? i)%nat; [|reflexivity].
      destruct (word_next is_word s); reflexivity.
    - apply Nat.leb_gt in Hlt. rewrite Hlt. reflexivity. }
  induction s as [|c s IH]; intros i prev n Hprev Hi.
  - cbn [rep take_while length drop take prev_after].
    rewrite !Nat.add_0_r, Hi, andb_true_r. apply Hstop, Hprev.
  - cbn [rep take_while].
    destruct (p c) eqn:Hc.
    + assert (Hw : is_word c = true) by auto.
      destruct (below hi i) eqn:Hb; cbn [andb].
      * rewrite IH; [| left; exact Hw | apply below_bounded, Hb].
        cbn [length drop take prev_after]. rewrite !Nat.add_succ_r.
        cbn [Nat.add].
        match goal with |- match ?X with _ => _ end = _ =>
          destruct X eqn:EX; [reflexivity|] end.
        rewrite Hstop by assumption.
        cbn [word_next]. rewrite Hw, andb_false_r. reflexivity.
      * cbn [length]. rewrite (not_below_bounded _ _ _ Hb), andb_false_r.
        cbn [andb]. rewrite Hstop by assumption.
        cbn [word_next]. rewrite Hw, andb_false_r. reflexivity.
    + cbn [andb length drop take prev_after].
      rewrite !Nat.add_0_r, Hi, andb_true_r. apply Hstop, Hprev.
Qed.
End RegexFacts.

(** ** Substitution with a pattern [p+] squeezes the runs of [p] *)

Section SubPlus.
Variable is_word : char -> bool.
Variable p : char -> bool.
Variable repl : str.

Lemma match_rep_accept lo prev s :
  match_at is_word (Rep p lo None) prev s false
  = if (lo <=? span p s)%nat then Some (span p s) else None.
Proof. unfold match_at. simpl. rewrite rep_accept. reflexivity. Qed.

Lemma sub_plus_squeeze : forall s prev,
  sub_from is_word (Rep p 1 None) repl prev s 0 = squeeze p repl false s
  /\ sub_from is_word (Rep p 1 None) repl prev s (span p s)
     = squeeze p repl true s.
Proof.
  induction s as [|c s IH]; intros prev.
  - split; reflexivity.
  - assert (H0 : sub_from is_word (Rep p 1 None) repl prev (c :: s) 0
                 = squeeze p repl false (c :: s)).
    { destruct (p c) eqn:Hc.
      - rewrite (sub_from_match _ _ _ _ _ (span p s)).
        + simpl. rewrite Hc. f_equal. apply IH.
        + rewrite match_rep_accept. unfold span. simpl. rewrite Hc.
          reflexivity.
      - rewrite sub_from_nomatch.
        + simpl. rewrite Hc. f_equal. apply IH.
        + rewrite match_rep_accept. unfold span. simpl. rewrite Hc.
          reflexivity. }
    split; [exact H0|].
    unfold span in *. simpl take_while. destruct (p c) eqn:Hc.
    + simpl. rewrite Hc. apply IH.
    + simpl length. rewrite H0. simpl. rewrite Hc. reflexivity.
Qed.

Lemma re_sub_plus s :
  re_sub is_word (Rep p 1 None) repl s = squeeze p repl false s.
Proof. apply sub_plus_squeeze. Qed.
End SubPlus.

(** ** Substitution with a word pattern edits the words *)

Section SubEdit.
Variable is_word sp : char -> bool.
Variable r : regex.
Variable eat : bool.
Variable bad : str -> bool.
Variable ok : char -> Prop.

Hypothesis sp_not_word : forall c, sp c = true -> is_word c = false.
Hypothesis ok_eat :
  eat = true -> forall c, ok c -> is_word c = true \/ sp c = true.
(** The pattern matches exactly at the start of a bad word, and takes the
    word and its trail. *)
Hypothesis matches : forall prev s, Forall ok s ->
  match_at is_word r prev s false
  = if negb (word_here is_word prev) && word_next is_word s
       && bad (take_while is_word s)
    then Some (span is_word s + trail sp eat (drop (span is_word s) s))%nat
    else None.

Lemma sub_edit_words : forall s, Forall ok s -> forall prev,
  (word_here is_word prev = false ->
   sub_from is_word r [] prev s 0 = edit_words is_word sp eat bad Outside s)
  /\ (word_here is_word prev = true ->
      sub_from is_word r [] prev s 0 = edit_words is_word sp eat bad Keeping s)
  /\ sub_from is_word r [] prev s
       (span is_word s + trail sp eat (drop (span is_word s) s))
     = edit_words is_word sp eat bad Dropping s
  /\ (word_here is_word prev = false ->
      sub_from is_word r [] prev s (trail sp eat s)
      = edit_words is_word sp eat bad Eating s).
Proof.
  induction s as [|c s IH]; intros Hok prev.
  - assert (E : sub_from is_word r [] prev [] 0 = []).
    { rewrite sub_from_nomatch; [reflexivity|].
      rewrite matches by constructor. simpl. rewrite andb_false_r.
      reflexivity. }
    unfold trail, span. simpl. destruct eat; simpl; auto.
  - inversion Hok as [|? ? Hc Hs]; subst.
    specialize (IH Hs).
    destruct (is_word c) eqn:Hw.
    + (* inside a word *)
      assert (Hspan : span is_word (c :: s) = S (span is_word s))
        by (unfold span; simpl; rewrite Hw; reflexivity).
      assert (Htw : take_while is_word (c :: s) = c :: take_while is_word s)
        by (simpl; rewrite Hw; reflexivity).
      assert (Hout : word_here is_word prev = false ->
                sub_from is_word r [] prev (c :: s) 0
                = edit_words is_word sp eat bad Outside (c :: s)).
      { intros Hp. cbn [edit_words]. rewrite Hw.
        destruct (bad (take_while is_word (c :: s))) eqn:Hbad.
        - rewrite (sub_from_match _ _ _ _ _
                     (span is_word s + trail sp eat (drop (span is_word s) s))).
          + simpl. apply IH.
          + rewrite matches by assumption. rewrite Hp, Hbad. simpl.
            rewrite Hw, Hspan. reflexivity.
        - rewrite sub_from_nomatch.
          + f_equal. apply IH. simpl. exact Hw.
          + rewrite matches by assumption. rewrite Hbad, andb_false_r.
            reflexivity. }
      split; [exact Hout|]. split; [|split].
      * intros Hp. cbn [edit_words]. rewrite Hw.
        rewrite sub_from_nomatch.
        -- f_equal. apply IH. simpl. exact Hw.
        -- rewrite matches by assumption. rewrite Hp. reflexivity.
      * rewrite Hspan. cbn [drop Nat.add]. rewrite sub_from_drop.
        cbn [edit_words]. rewrite Hw. apply IH.
      * intros Hp.
        assert (Ht : trail sp eat (c :: s) = 0%nat).
        { unfold trail, span. destruct eat; [|reflexivity]. simpl.
          destruct (sp c) eqn:Hsp; [|reflexivity].
          rewrite (sp_not_word _ Hsp) in Hw. discriminate. }
        rewrite Ht, (Hout Hp). cbn [edit_words]. rewrite Hw. reflexivity.
    + (* outside of the words *)
      assert (Hspan : span is_word (c :: s) = 0%nat)
        by (unfold span; simpl; rewrite Hw; reflexivity).
      assert (H0 : sub_from is_word r [] prev (c :: s) 0
                   = c :: edit_words is_word sp eat bad Outside s).
      { rewrite sub_from_nomatch.
        - f_equal. apply IH. simpl. exact Hw.
        - rewrite matches by assumption. simpl. rewrite Hw, andb_false_r.
          reflexivity. }
      assert (Heat : eat && sp c = true ->
                sub_from is_word r [] prev (c :: s) (trail sp eat (c :: s))
                = edit_words is_word sp eat bad Eating s).
      { intros He. apply andb_true_iff in He as [-> Hsp].
        unfold trail, span. simpl. rewrite Hsp. simpl.
        apply IH. simpl. exact Hw. }
      split; [|split; [|split]].
      * intros _. cbn [edit_words]. rewrite Hw. exact H0.
      * intros _. cbn [edit_words]. rewrite Hw. exact H0.
      * rewrite Hspan. cbn [drop Nat.add]. cbn [edit_words]. rewrite Hw.
        destruct (eat && sp c) eqn:He.
        -- apply Heat. reflexivity.
        -- destruct eat.
           ++ destruct (ok_eat eq_refl c Hc) as [Hx | Hx];
                [rewrite Hx in Hw; discriminate|].
              rewrite Hx in He. discriminate.
           ++ unfold trail. exact H0.
      * intros _. cbn [edit_words]. rewrite Hw.
        destruct (eat && sp c) eqn:He.
        -- apply Heat. reflexivity.
        -- destruct eat.
           ++ destruct (ok_eat eq_refl c Hc) as [Hx | Hx];
                [rewrite Hx in Hw; discriminate|].
              rewrite Hx in He. discriminate.
           ++ unfold trail. exact H0.
Qed.
End SubEdit.

(** ** Character classes *)

Lemma all_forallb p s : forallb p s = true -> all p s.
Proof.
  unfold all. induction s as [|c s IH]; simpl; intros H; constructor;
    apply andb_true_iff in H as [? ?]; auto.
Qed.

Lemma all_app p a b : all p a -> all p b -> all p (a ++ b).
Proof. intros. apply Forall_app; split; assumption. Qed.

Lemma all_impl (p q : char -> bool) s :
  (forall c, p c = true -> q c = true) -> all p s -> all q s.
Proof. intros H Hs. eapply List.Forall_impl; [|exact Hs]. exact H. Qed.

Lemma str_eqb_refl a : str_eqb a a = true.
Proof. unfold str_eqb. apply bool_decide_eq_true. reflexivity. Qed.

Lemma str_eqb_eq a b : str_eqb a b = true -> a = b.
Proof. unfold str_eqb. apply bool_decide_eq_true. Qed.

Lemma str_eqb_cons c a b : str_eqb (c :: a) (c :: b) = str_eqb a b.
Proof.
  unfold str_eqb. apply bool_decide_ext. split; [|intros ->; reflexivity].
  intros H. inversion H. reflexivity.
Qed.

Lemma str_eqb_neq a b : a <> b -> str_eqb a b = false.
Proof. unfold str_eqb. apply bool_decide_eq_false. Qed.

Lemma mem_In x l : mem x l = true <-> In x l.
Proof.
  unfold mem. rewrite existsb_exists. split.
  - intros (y & Hy & E). apply str_eqb_eq in E. subst. exact Hy.
  - intros H. exists x. split; [exact H | apply str_eqb_refl].
Qed.

Lemma letter_below c : ascii_letter c = true -> c < 128.
Proof.
  unfold ascii_letter, ascii_upper, ascii_lower, between.
  rewrite orb_true_iff, !andb_true_iff, !N.leb_le. lia.
Qed.

Lemma letter_alnum c : ascii_letter c = true -> ascii_alnum c = true.
Proof. unfold ascii_alnum. intros ->. reflexivity. Qed.

Lemma letter_not_digit c : ascii_letter c = true -> ascii_digit c = false.
Proof.
  unfold ascii_letter, ascii_upper, ascii_lower, ascii_digit, between.
  rewrite orb_true_iff, !andb_true_iff, andb_false_iff, !N.leb_le, !N.leb_gt.
  lia.
Qed.

Lemma lower_letter c : ascii_lower c = true -> ascii_letter c = true.
Proof. unfold ascii_letter. intros ->. apply orb_true_r. Qed.

Lemma blank_not_letter : ascii_letter SPACE = false.
Proof. reflexivity. Qed.

Lemma letter_or_blank_cases c :
  letter_or_blank c = true -> ascii_letter c = true \/ c = SPACE.
Proof.
  unfold letter_or_blank. rewrite orb_true_iff, N.eqb_eq. tauto.
Qed.

Section ClassFacts.
Variables is_word is_space is_digit : char -> bool.
Hypothesis U : unicode_laws is_word is_space is_digit.

Lemma letter_word c : ascii_letter c = true -> is_word c = true.
Proof.
  intros H. rewrite (word_ascii _ _ _ U) by (apply letter_below, H).
  rewrite (letter_alnum _ H). reflexivity.
Qed.

Lemma blank_not_word : is_word SPACE = false.
Proof. apply (space_not_word _ _ _ U), (space_blank _ _ _ U). Qed.

Lemma letter_not_space c : ascii_letter c = true -> is_space c = false.
Proof.
  intros H. destruct (is_space c) eqn:E; [|reflexivity].
  pose proof (space_not_word _ _ _ U _ E).
  pose proof (letter_word _ H). congruence.
Qed.

Lemma letter_no_digit c : ascii_letter c = true -> is_digit c = false.
Proof.
  intros H. rewrite (digit_ascii _ _ _ U) by (apply letter_below, H).
  apply letter_not_digit, H.
Qed.

Lemma blank_no_digit : is_digit SPACE = false.
Proof. rewrite (digit_ascii _ _ _ U) by reflexivity. reflexivity. Qed.

Lemma word_not_space c : is_word c = true -> is_space c = false.
Proof.
  intros H. destruct (is_space c) eqn:E; [|reflexivity].
  rewrite (space_not_word _ _ _ U _ E) in H. discriminate.
Qed.

Lemma plain_word_or_space c :
  letter_or_blank c = true -> is_word c = true \/ is_space c = true.
Proof.
  intros H. destruct (letter_or_blank_cases _ H) as [H' | ->].
  - left. apply letter_word, H'.
  - right. apply (space_blank _ _ _ U).
Qed.

(** On letters and blanks, a word character is a letter and white space
    is the blank. *)
Lemma plain_word c :
  letter_or_blank c = true -> is_word c = ascii_letter c.
Proof.
  intros H. destruct (letter_or_blank_cases _ H) as [H' | ->].
  - rewrite H'. apply letter_word, H'.
  - rewrite blank_not_word. reflexivity.
Qed.

Lemma plain_space c :
  letter_or_blank c = true -> is_space c = (c =? SPACE).
Proof.
  intros H. destruct (letter_or_blank_cases _ H) as [H' | ->].
  - rewrite (letter_not_space _ H'). symmetry. apply N.eqb_neq.
    intros ->. discriminate.
  - rewrite (space_blank _ _ _ U). reflexivity.
Qed.
End ClassFacts.

(** ** Runs and spans *)

Section Spans.
Variable p : char -> bool.

Lemma span_cons_true c s : p c = true -> span p (c :: s) = S (span p s).
Proof. unfold span. simpl. intros ->. reflexivity. Qed.

Lemma span_cons_false c s : p c = false -> span p (c :: s) = 0%nat.
Proof. unfold span. simpl. intros ->. reflexivity. Qed.

Lemma take_while_all s : all p (take_while p s).
Proof.
  unfold all. induction s as [|c s IH]; simpl; [constructor|].
  destruct (p c) eqn:E; constructor; assumption.
Qed.

Lemma take_span s : take (span p s) s = take_while p s.
Proof.
  unfold span. induction s as [|c s IH]; simpl; [reflexivity|].
  destruct (p c); simpl; [f_equal; exact IH | reflexivity].
Qed.

Lemma drop_span s : drop (span p s) s = drop_while p s.
Proof.
  unfold span. induction s as [|c s IH]; simpl; [reflexivity|].
  destruct (p c); simpl; [exact IH | reflexivity].
Qed.

Lemma take_drop_while s : take_while p s ++ drop_while p s = s.
Proof.
  induction s as [|c s IH]; simpl; [reflexivity|].
  destruct (p c); simpl; [f_equal; exact IH | reflexivity].
Qed.

Lemma drop_while_head s :
  match drop_while p s with c :: _ => p c = false | [] => True end.
Proof.
  induction s as [|c s IH]; simpl; [exact I|].
  destruct (p c) eqn:E; [exact IH | exact E].
Qed.

Lemma take_while_app_all a b :
  all p a -> take_while p (a ++ b) = a ++ take_while p b.
Proof.
  unfold all. induction 1 as [|c a Hc Ha IH]; simpl; [reflexivity|].
  rewrite Hc, IH. reflexivity.
Qed.
End Spans.

(** ** The substitutions of [clean], one by one *)

Section Steps.
Variables is_word is_space is_digit : char -> bool.
Variable stopwords : list str.
Hypothesis U : unicode_laws is_word is_space is_digit.

(** *** [(\W| +)]: every non-word character on its own *)

Lemma match_nonword prev s :
  match_at is_word (re_nonword is_word) prev s false
  = match s with
    | c :: _ => if is_word c then None else Some 1%nat
    | [] => None
    end.
Proof.
  unfold match_at, re_nonword, plus. destruct s as [|c s]; [reflexivity|].
  cbn [run rep]. unfold non_word.
  destruct (is_word c) eqn:E; cbn [negb]; [|reflexivity].
  unfold is_char. destruct (c =? SPACE) eqn:Ec; [|reflexivity].
  apply N.eqb_eq in Ec. subst. rewrite (blank_not_word _ _ _ U) in E.
  discriminate.
Qed.

Lemma sub_nonword_map : forall s prev,
  sub_from is_word (re_nonword is_word) [SPACE] prev s 0
  = map (fun c => if is_word c then c else SPACE) s.
Proof.
  induction s as [|c s IH]; intros prev.
  - rewrite sub_from_nomatch; [reflexivity | apply match_nonword].
  - cbn [map]. destruct (is_word c) eqn:E.
    + rewrite sub_from_nomatch; [f_equal; apply IH|].
      rewrite match_nonword, E. reflexivity.
    + rewrite (sub_from_match _ _ _ _ _ 0%nat).
      * cbn [app]. f_equal. apply IH.
      * rewrite match_nonword, E. reflexivity.
Qed.

(** *** [\b\d+\b]: the words made of digits only *)

Lemma not_word_not_digit c : is_word c = false -> is_digit c = false.
Proof.
  intros H. destruct (is_digit c) eqn:E; [|reflexivity].
  rewrite (digit_word _ _ _ U _ E) in H. discriminate.
Qed.

Lemma numeric_run : forall s,
  numeric is_digit (take_while is_word s)
  = negb (word_next is_word (drop (span is_digit s) s)).
Proof.
  induction s as [|c s IH]; [reflexivity|].
  destruct (is_digit c) eqn:Ed.
  - rewrite (span_cons_true _ _ _ Ed). cbn [drop take_while].
    rewrite (digit_word _ _ _ U _ Ed). unfold numeric in *.
    cbn [forallb]. rewrite Ed. exact IH.
  - rewrite (span_cons_false _ _ _ Ed). cbn [drop take_while word_next].
    destruct (is_word c); [|reflexivity].
    unfold numeric. cbn [forallb]. rewrite Ed. reflexivity.
Qed.

Lemma numeric_span : forall s,
  numeric is_digit (take_while is_word s) = true ->
  span is_digit s = span is_word s.
Proof.
  induction s as [|c s IH]; [reflexivity|].
  cbn [take_while]. destruct (is_word c) eqn:Ew.
  - unfold numeric. cbn [forallb]. intros H.
    apply andb_true_iff in H as [Hd Hn].
    rewrite (span_cons_true _ _ _ Hd), (span_cons_true _ _ _ Ew).
    f_equal. apply IH. exact Hn.
  - intros _. rewrite (span_cons_false _ _ _ Ew).
    apply span_cons_false, not_word_not_digit, Ew.
Qed.

Lemma match_number prev s :
  match_at is_word (re_number is_digit) prev s false
  = if negb (word_here is_word prev) && word_next is_word s
       && numeric is_digit (take_while is_word s)
    then Some (span is_word s
               + trail is_space false (drop (span is_word s) s))%nat
    else None.
Proof.
  unfold match_at, re_number, plus, trail. cbn [run].
  rewrite (rep_boundary is_word is_digit 1 None (accept false)
             (digit_word _ _ _ U)); [| right; lia | reflexivity].
  fold (span is_digit s). rewrite <- numeric_run.
  cbn [bounded Nat.add]. rewrite andb_true_r, Nat.add_0_r.
  destruct (numeric is_digit (take_while is_word s)) eqn:En.
  - rewrite (numeric_span _ En), !andb_true_r.
    destruct s as [|c s];
      [rewrite andb_false_r;
       destruct (at_boundary is_word prev []); reflexivity|].
    unfold at_boundary. cbn [word_next].
    destruct (is_word c) eqn:Ew.
    + rewrite (span_cons_true _ _ _ Ew). rewrite andb_true_r.
      destruct (word_here is_word prev); reflexivity.
    + rewrite (span_cons_false _ _ _ Ew), andb_false_r.
      destruct (xorb (word_here is_word prev) false); reflexivity.
  - rewrite !andb_false_r.
    destruct (at_boundary is_word prev s); reflexivity.
Qed.

Lemma sub_number s :
  re_sub is_word (re_number is_digit) [] s
  = remove_tokens is_word is_space (numeric is_digit) s.
Proof.
  unfold re_sub, remove_tokens.
  apply (sub_edit_words is_word is_space (re_number is_digit) false
           (numeric is_digit) (fun _ => True)).
  - apply (space_not_word _ _ _ U).
  - discriminate.
  - intros prev' s' _. apply match_number.
  - apply Forall_forall. intros; exact I.
  - reflexivity.
Qed.

(** *** [\b\w{1,2}\b]: the words of one or two characters *)

Lemma after_span : forall s,
  word_next is_word (drop (span is_word s) s) = false.
Proof.
  induction s as [|c s IH]; [reflexivity|].
  destruct (is_word c) eqn:Ew.
  - rewrite (span_cons_true _ _ _ Ew). exact IH.
  - rewrite (span_cons_false _ _ _ Ew). cbn [drop word_next]. exact Ew.
Qed.

Lemma match_short prev s :
  match_at is_word (re_short is_word) prev s false
  = if negb (word_here is_word prev) && word_next is_word s
       && short (take_while is_word s)
    then Some (span is_word s
               + trail is_space false (drop (span is_word s) s))%nat
    else None.
Proof.
  unfold match_at, re_short, trail. cbn [run].
  rewrite (rep_boundary is_word is_word 1 (Some 2%nat) (accept false));
    [| auto | right; lia | reflexivity].
  fold (span is_word s). rewrite after_span.
  cbn [bounded Nat.add negb]. rewrite andb_true_r, Nat.add_0_r.
  unfold short. fold (span is_word s).
  destruct s as [|c s];
      [rewrite andb_false_r;
       destruct (at_boundary is_word prev []); reflexivity|].
  unfold at_boundary. cbn [word_next].
  destruct (is_word c) eqn:Ew.
  - rewrite (span_cons_true _ _ _ Ew). rewrite andb_true_r.
    cbn [Nat.leb].
    destruct (word_here is_word prev); cbn [xorb negb andb];
      [reflexivity|].
    destruct (S (span is_word s) <=? 2)%nat; reflexivity.
  - rewrite (span_cons_false _ _ _ Ew), andb_false_r.
    destruct (xorb (word_here is_word prev) false); reflexivity.
Qed.

Lemma sub_short s :
  re_sub is_word (re_short is_word) [] s
  = remove_tokens is_word is_space short s.
Proof.
  unfold re_sub, remove_tokens.
  apply (sub_edit_words is_word is_space (re_short is_word) false short
           (fun _ => True)).
  - apply (space_not_word _ _ _ U).
  - discriminate.
  - intros prev' s' _. apply match_short.
  - apply Forall_forall. intros; exact I.
  - reflexivity.
Qed.
End Steps.

(** *** [\b(w1|...|wn)\b\s*]: the stopwords and the white space after them *)

Section StopwordStep.
Variables is_word is_space is_digit : char -> bool.
Variable stopwords : list str.
Hypothesis U : unicode_laws is_word is_space is_digit.

Lemma run_alternatives (k : cont) prev s n : forall ws, ws <> [] ->
  run is_word (alternatives ws) prev s n k
  = try_words ws (fun w => lit w prev s n k).
Proof.
  induction ws as [|w ws IH]; intros Hne; [congruence|].
  destruct ws as [|w2 ws].
  - cbn [alternatives run try_words].
    destruct (lit w prev s n k); reflexivity.
  - change (alternatives (w :: w2 :: ws))
      with (Alt (Lit w) (alternatives (w2 :: ws))).
    cbn [run try_words]. rewrite IH by discriminate.
    reflexivity.
Qed.

Lemma stopword_char_word c d :
  ascii_lower c || (c =? APOSTROPHE) = true ->
  letter_or_blank d = true -> (d =? c) = true -> is_word d = true.
Proof.
  intros Hc Hd E. apply N.eqb_eq in E. subst d.
  apply (letter_word _ _ _ U).
  destruct (letter_or_blank_cases _ Hd) as [H | ->]; [exact H|].
  discriminate.
Qed.

(** A stopword matches, with [\b] after it, exactly when it is the whole
    word that starts here. *)
Lemma lit_stopword (k : cont) : forall w prev s n,
  forallb (fun c => ascii_lower c || (c =? APOSTROPHE)) w = true ->
  all letter_or_blank s ->
  word_here is_word prev = true \/ w <> [] ->
  lit w prev s n
    (fun prev' s' n' =>
       if at_boundary is_word prev' s' then k prev' s' n' else None)
  = if str_eqb (take_while is_word s) w
    then k (prev_after prev w) (drop (length w) s) (n + length w)%nat
    else None.
Proof.
  induction w as [|c w IH]; intros prev s n Hw Hs Hprev.
  - destruct Hprev as [Hp | ?]; [|congruence].
    cbn [lit length drop prev_after]. rewrite Nat.add_0_r.
    unfold at_boundary. rewrite Hp.
    destruct s as [|d s]; [reflexivity|].
    cbn [word_next take_while]. destruct (is_word d); reflexivity.
  - cbn [forallb] in Hw. apply andb_true_iff in Hw as [Hc Hw].
    destruct s as [|d s]; [reflexivity|].
    inversion Hs as [|? ? Hd Hs']; subst.
    cbn [lit]. destruct (d =? c) eqn:E.
    + pose proof (stopword_char_word _ _ Hc Hd E) as Hwd.
      apply N.eqb_eq in E. subst d.
      rewrite IH; [| exact Hw | exact Hs' | left; exact Hwd].
      cbn [take_while]. rewrite Hwd, str_eqb_cons.
      cbn [length drop prev_after]. rewrite Nat.add_succ_r. reflexivity.
    + rewrite str_eqb_neq; [reflexivity|].
      cbn [take_while]. apply N.eqb_neq in E.
      destruct (is_word d); congruence.
Qed.

Lemma try_stopwords (k : cont) prev s : forall ws,
  forallb stopword_ok ws = true ->
  all letter_or_blank s ->
  try_words ws
    (fun w => lit w prev s 0
       (fun prev' s' n' =>
          if at_boundary is_word prev' s' then k prev' s' n' else None))
  = if mem (take_while is_word s) ws
    then k (prev_after prev (take_while is_word s))
           (drop (length (take_while is_word s)) s)
           (length (take_while is_word s))
    else None.
Proof.
  induction ws as [|w ws IH]; intros Hws Hs; [reflexivity|].
  cbn [forallb] in Hws. apply andb_true_iff in Hws as [Hw Hws].
  unfold stopword_ok in Hw. apply andb_true_iff in Hw as [Hne Hw].
  apply negb_true_iff, bool_decide_eq_false in Hne.
  cbn [try_words]. rewrite lit_stopword by auto.
  unfold mem. cbn [existsb]. fold (mem (take_while is_word s) ws).
  rewrite IH by assumption. cbn [Nat.add].
  destruct (str_eqb (take_while is_word s) w) eqn:E; [|reflexivity].
  apply str_eqb_eq in E. rewrite <- E. cbn [orb].
  destruct (k _ _ _); [reflexivity|].
  destruct (mem (take_while is_word s) ws); reflexivity.
Qed.

Lemma stopword_not_nil ws :
  forallb stopword_ok ws = true -> mem [] ws = false.
Proof.
  intros H. destruct (mem [] ws) eqn:E; [|reflexivity].
  apply mem_In in E. rewrite forallb_forall in H.
  specialize (H _ E). discriminate.
Qed.

Hypothesis stopwords_fine : stopwords_ok stopwords = true.

Lemma stopwords_each : forallb stopword_ok stopwords = true.
Proof.
  unfold stopwords_ok in stopwords_fine.
  apply andb_true_iff in stopwords_fine. tauto.
Qed.

Lemma stopwords_some : stopwords <> [].
Proof.
  unfold stopwords_ok in stopwords_fine.
  apply andb_true_iff in stopwords_fine as [H _].
  apply negb_true_iff, bool_decide_eq_false in H. exact H.
Qed.

Lemma match_stopwords prev s :
  all letter_or_blank s ->
  match_at is_word (re_stopwords is_space stopwords) prev s false
  = if negb (word_here is_word prev) && word_next is_word s
       && is_stopword stopwords (take_while is_word s)
    then Some (span is_word s
               + trail is_space true (drop (span is_word s) s))%nat
    else None.
Proof.
  intros Hs. unfold match_at, re_stopwords, star, trail, is_stopword.
  cbn [run].
  rewrite run_alternatives by apply stopwords_some.
  rewrite (try_stopwords
             (fun prev' s' n' => rep is_space 0 None 0 prev' s' n' (accept false)))
    by (apply stopwords_each || exact Hs).
  rewrite rep_accept. cbn [Nat.leb Nat.add]. fold (span is_word s).
  destruct (mem (take_while is_word s) stopwords) eqn:Em.
  - rewrite andb_true_r. unfold at_boundary.
    destruct s as [|c s].
    + cbn [take_while] in Em. rewrite stopword_not_nil in Em
        by apply stopwords_each. discriminate.
    + cbn [take_while] in Em. cbn [word_next].
      destruct (is_word c) eqn:Ew.
      * rewrite andb_true_r.
        destruct (word_here is_word prev); reflexivity.
      * rewrite stopword_not_nil in Em by apply stopwords_each.
        discriminate.
  - rewrite andb_false_r.
    destruct (at_boundary is_word prev s); reflexivity.
Qed.

Lemma sub_stopwords s :
  all letter_or_blank s ->
  re_sub is_word (re_stopwords is_space stopwords) [] s
  = edit_words is_word is_space true (is_stopword stopwords) Outside s.
Proof.
  intros Hs. unfold re_sub.
  apply (sub_edit_words is_word is_space (re_stopwords is_space stopwords)
           true (is_stopword stopwords)
           (fun c => letter_or_blank c = true)).
  - apply (space_not_word _ _ _ U).
  - intros _ c Hc. apply (plain_word_or_space _ _ _ U), Hc.
  - intros prev' s' Hs'. apply match_stopwords, Hs'.
  - exact Hs.
  - reflexivity.
Qed.
End StopwordStep.

(** ** Squeezing runs *)

Section SqueezeFacts.
Variable p : char -> bool.
Variable repl : str.

Lemma squeeze_Forall (P : char -> Prop) : Forall P repl ->
  forall s b, Forall P s -> Forall P (squeeze p repl b s).
Proof.
  intros Hr. induction s as [|c s IH]; intros b Hs; [constructor|].
  inversion Hs; subst. cbn [squeeze].
  destruct (p c); [destruct b|]; auto.
  apply Forall_app; auto.
Qed.

(** Whatever is left is not of class [p], or comes from [repl]. *)
Lemma squeeze_rest (P : char -> Prop) :
  Forall P repl -> (forall c, p c = false -> P c) ->
  forall s b, Forall P (squeeze p repl b s).
Proof.
  intros Hr HP. induction s as [|c s IH]; intros b; [constructor|].
  cbn [squeeze]. destruct (p c) eqn:E; [destruct b|]; auto.
  apply Forall_app; auto.
Qed.

Lemma squeeze_ext q : forall s b,
  Forall (fun c => p c = q c) s ->
  squeeze p repl b s = squeeze q repl b s.
Proof.
  induction s as [|c s IH]; intros b Hs; [reflexivity|].
  inversion Hs as [|? ? Hc Hs']; subst. cbn [squeeze]. rewrite <- Hc.
  destruct (p c); [destruct b|]; rewrite IH by assumption; reflexivity.
Qed.

Lemma squeeze_none : forall s b,
  Forall (fun c => p c = false) s -> squeeze p repl b s = s.
Proof.
  induction s as [|c s IH]; intros b Hs; [reflexivity|].
  inversion Hs as [|? ? Hc Hs']; subst. cbn [squeeze]. rewrite Hc.
  f_equal. apply IH. exact Hs'.
Qed.
End SqueezeFacts.

Lemma squeeze_delete p : forall s b,
  squeeze p [] b s = List.filter (fun c => negb (p c)) s.
Proof.
  induction s as [|c s IH]; intros b; [reflexivity|].
  cbn [squeeze List.filter]. destruct (p c); [destruct b|]; cbn [negb app];
    rewrite IH; reflexivity.
Qed.

(** Squeezing twice is squeezing once, when the replacement is one
    character of the class. *)
Lemma squeeze_twice p x : p x = true -> forall s,
  squeeze p [x] false (squeeze p [x] false s) = squeeze p [x] false s
  /\ squeeze p [x] true (squeeze p [x] true s) = squeeze p [x] true s.
Proof.
  intros Hx. induction s as [|c s [IH1 IH2]]; [split; reflexivity|].
  cbn [squeeze]. destruct (p c) eqn:E.
  - split; [|exact IH2]. cbn [app squeeze]. rewrite Hx. cbn [app].
    f_equal. exact IH2.
  - cbn [squeeze]. rewrite E. split; f_equal; exact IH1.
Qed.

(** Mapping a class to one of its members and then squeezing the member
    is squeezing the class. *)
Lemma squeeze_map p x : p x = true -> forall s b,
  squeeze (is_char x) [x] b (map (fun c => if p c then x else c) s)
  = squeeze p [x] b s.
Proof.
  intros Hx. induction s as [|c s IH]; intros b; [reflexivity|].
  cbn [map squeeze]. unfold is_char at 1. destruct (p c) eqn:E.
  - rewrite N.eqb_refl. destruct b; rewrite IH; reflexivity.
  - destruct (c =? x) eqn:Ec.
    + apply N.eqb_eq in Ec. subst. congruence.
    + rewrite IH. reflexivity.
Qed.

(** ** Runs *)

Section RunFacts.
Variable p : char -> bool.

Lemma runs_shape : forall s b,
  Forall (fun w => w <> [] /\ all p w) (runs p b s).
Proof.
  induction s as [|c s IH]; intros b; [constructor|].
  cbn [runs]. destruct (p c) eqn:E; [destruct b|]; auto.
  constructor; [|apply IH]. split.
  - cbn [take_while]. rewrite E. discriminate.
  - apply take_while_all.
Qed.

Lemma runs_from (P : char -> Prop) : forall s b,
  Forall P s -> Forall (Forall P) (runs p b s).
Proof.
  induction s as [|c s IH]; intros b Hs; [constructor|].
  inversion Hs as [|? ? Hc Hs']; subst.
  cbn [runs]. destruct (p c) eqn:E; [destruct b|]; auto.
  constructor; [|apply IH, Hs'].
  rewrite <- (take_drop_while p (c :: s)) in Hs.
  apply Forall_app in Hs. tauto.
Qed.

(** Characters outside the class only separate: their number and kind
    do not matter. *)
Section Separators.
Variable q : char -> bool.
Variable x : char.
Hypothesis q_x : q x = true.
Hypothesis q_not_p : forall c, q c = true -> p c = false.

Lemma take_while_squeeze : forall s,
  take_while p (squeeze q [x] false s) = take_while p s.
Proof.
  induction s as [|c s IH]; [reflexivity|].
  cbn [squeeze]. destruct (q c) eqn:Ec.
  - cbn [app take_while]. rewrite (q_not_p _ q_x), (q_not_p _ Ec).
    reflexivity.
  - cbn [take_while]. rewrite IH. reflexivity.
Qed.

Lemma runs_squeeze : forall s b bq, b && bq = false ->
  runs p b (squeeze q [x] bq s) = runs p b s.
Proof.
  induction s as [|c s IH]; intros b bq Hb; [reflexivity|].
  cbn [squeeze]. destruct (q c) eqn:Ec.
  - pose proof (q_not_p _ Ec) as Ep. cbn [runs]. rewrite Ep.
    destruct bq.
    + destruct b; [discriminate|]. apply IH. reflexivity.
    + cbn [app runs]. rewrite (q_not_p _ q_x). apply IH. reflexivity.
  - cbn [runs]. destruct (p c) eqn:Ep.
    + destruct b.
      * apply IH. reflexivity.
      * rewrite (IH true false eq_refl). f_equal.
        cbn [take_while]. rewrite Ep, take_while_squeeze. reflexivity.
    + apply IH. reflexivity.
Qed.
End Separators.
End RunFacts.

(** ** Word-wise deletion *)

Section EditFacts.
Variables w sp : char -> bool.
Variable eat : bool.
Variable bad : str -> bool.

Lemma edit_Forall (P : char -> Prop) : forall s m,
  Forall P s -> Forall P (edit_words w sp eat bad m s).
Proof.
  induction s as [|c s IH]; intros m Hs; [constructor|].
  inversion Hs; subst. cbn [edit_words].
  destruct (w c); destruct m;
    repeat match goal with |- context [if ?b then _ else _] => destruct b end;
    auto.
Qed.

Lemma take_while_keeping : forall s,
  take_while w (edit_words w sp eat bad Keeping s) = take_while w s.
Proof.
  induction s as [|c s IH]; [reflexivity|].
  cbn [edit_words]. destruct (w c) eqn:E; cbn [take_while]; rewrite E;
    [f_equal; exact IH | reflexivity].
Qed.

(** The words that are left are the words that are not [bad]. *)
Lemma runs_edit : forall s,
  runs w false (edit_words w sp eat bad Outside s)
  = List.filter (fun x => negb (bad x)) (runs w false s)
  /\ runs w true (edit_words w sp eat bad Keeping s)
     = List.filter (fun x => negb (bad x)) (runs w true s)
  /\ runs w false (edit_words w sp eat bad Dropping s)
     = List.filter (fun x => negb (bad x)) (runs w true s)
  /\ runs w false (edit_words w sp eat bad Eating s)
     = List.filter (fun x => negb (bad x)) (runs w false s).
Proof.
  induction s as [|c s (IH1 & IH2 & IH3 & IH4)];
    [repeat split; reflexivity|].
  destruct (w c) eqn:E.
  - assert (Hstart : forall m, m = Outside \/ m = Eating ->
              runs w false (edit_words w sp eat bad m (c :: s))
              = List.filter (fun x => negb (bad x)) (runs w false (c :: s))).
    { intros m Hm.
      assert (Hm' : edit_words w sp eat bad m (c :: s)
                    = if bad (take_while w (c :: s))
                      then edit_words w sp eat bad Dropping s
                      else c :: edit_words w sp eat bad Keeping s)
        by (destruct Hm; subst; cbn [edit_words]; rewrite E; reflexivity).
      rewrite Hm'. cbn [runs]. rewrite E. cbn [List.filter].
      destruct (bad (take_while w (c :: s))) eqn:Eb; cbn [negb].
      - exact IH3.
      - cbn [runs]. rewrite E, IH2. f_equal.
        cbn [take_while]. rewrite E, take_while_keeping. reflexivity. }
    split; [apply Hstart; auto|]. split; [|split; [|apply Hstart; auto]].
    + cbn [edit_words runs]. rewrite E. cbn [runs]. rewrite E. exact IH2.
    + cbn [edit_words runs]. rewrite E. exact IH3.
  - assert (Hout : runs w false (c :: edit_words w sp eat bad Outside s)
                   = List.filter (fun x => negb (bad x)) (runs w false s))
      by (cbn [runs]; rewrite E; exact IH1).
    assert (Hskip : forall m, m = Dropping \/ m = Eating ->
              runs w false (edit_words w sp eat bad m (c :: s))
              = List.filter (fun x => negb (bad x)) (runs w false s)).
    { intros m Hm.
      assert (Hm' : edit_words w sp eat bad m (c :: s)
                    = if eat && sp c
                      then edit_words w sp eat bad Eating s
                      else c :: edit_words w sp eat bad Outside s)
        by (destruct Hm; subst; cbn [edit_words]; rewrite E; reflexivity).
      rewrite Hm'. destruct (eat && sp c); [exact IH4 | exact Hout]. }
    cbn [runs]. rewrite E.
    split; [|split; [|split]].
    + cbn [edit_words]. rewrite E. exact Hout.
    + cbn [edit_words]. rewrite E. cbn [runs]. rewrite E. exact IH1.
    + apply Hskip. auto.
    + apply Hskip. auto.
Qed.

(** Nothing changes when no word is [bad]. *)
Lemma edit_id : forall s,
  (Forall (fun x => bad x = false) (runs w false s) ->
   edit_words w sp eat bad Outside s = s)
  /\ (Forall (fun x => bad x = false) (runs w true s) ->
      edit_words w sp eat bad Keeping s = s).
Proof.
  induction s as [|c s [IH1 IH2]]; [split; reflexivity|].
  cbn [edit_words runs]. destruct (w c) eqn:E.
  - split.
    + intros H. inversion H as [|? ? Hb Hr]; subst.
      cbn [take_while] in Hb |- *. rewrite E in Hb |- *. rewrite Hb.
      f_equal. apply IH2, Hr.
    + intros H. f_equal. apply IH2, H.
  - split; intros H; f_equal; apply IH1, H.
Qed.
End EditFacts.

Lemma filter_twice {A} (f g : A -> bool) l :
  List.filter g (List.filter f l) = List.filter (fun x => f x && g x) l.
Proof.
  induction l as [|a l IH]; [reflexivity|].
  cbn [List.filter]. destruct (f a); cbn [andb List.filter];
    [destruct (g a)|]; rewrite IH; reflexivity.
Qed.

Lemma filter_all_true {A} (f : A -> bool) l :
  Forall (fun x => f x = true) l -> List.filter f l = l.
Proof.
  induction 1 as [|a l Ha Hl IH]; [reflexivity|].
  cbn [List.filter]. rewrite Ha, IH. reflexivity.
Qed.

Lemma filter_sound {A} (f : A -> bool) l :
  Forall (fun x => f x = true) (List.filter f l).
Proof.
  induction l as [|a l IH]; [constructor|].
  cbn [List.filter]. destruct (f a) eqn:E; [constructor|]; assumption.
Qed.

Lemma filter_Forall {A} (P : A -> Prop) (f : A -> bool) l :
  Forall P l -> Forall P (List.filter f l).
Proof.
  induction 1 as [|a l Ha Hl IH]; [constructor|].
  cbn [List.filter]. destruct (f a); [constructor|]; assumption.
Qed.

(** ** Stripping and squeezing the blanks leaves the words, joined *)

Lemma join_cons sep x l :
  join sep (x :: l)
  = x ++ match l with [] => [] | _ => sep ++ join sep l end.
Proof. destruct l; cbn [join]; [rewrite app_nil_r|]; reflexivity. Qed.

Lemma squeeze_rest_from p repl (P Q : char -> Prop) :
  Forall P repl -> (forall c, Q c -> p c = false -> P c) ->
  forall s b, Forall Q s -> Forall P (squeeze p repl b s).
Proof.
  intros Hr HP. induction s as [|c s IH]; intros b Hs; [constructor|].
  inversion Hs; subst.
  cbn [squeeze]. destruct (p c) eqn:E; [destruct b|]; auto.
  apply Forall_app; auto.
Qed.

Section Normal.
Variables is_word is_space is_digit : char -> bool.
Hypothesis U : unicode_laws is_word is_space is_digit.

Lemma plain_kind c : letter_or_blank c = true ->
  (is_word c = true /\ is_space c = false /\ is_char SPACE c = false)
  \/ (c = SPACE /\ is_word c = false /\ is_space c = true).
Proof.
  intros H. destruct (letter_or_blank_cases _ H) as [Hl | ->].
  - left. split; [apply (letter_word _ _ _ U), Hl|].
    split; [apply (letter_not_space _ _ _ U), Hl|].
    unfold is_char. apply N.eqb_neq. intros ->. discriminate.
  - right. split; [reflexivity|].
    split; [apply (blank_not_word _ _ _ U) | apply (space_blank _ _ _ U)].
Qed.

Lemma rstrip_cons_keep c s :
  is_space c = false -> rstrip is_space (c :: s) = c :: rstrip is_space s.
Proof.
  intros H. cbn [rstrip]. rewrite H. destruct (rstrip is_space s); reflexivity.
Qed.

Lemma rstrip_cons_space c s :
  is_space c = true ->
  rstrip is_space (c :: s)
  = match rstrip is_space s with [] => [] | r => c :: r end.
Proof. intros H. cbn [rstrip]. rewrite H. reflexivity. Qed.

Lemma rstrip_joined : forall v, all letter_or_blank v ->
  (rstrip is_space v = [] <-> runs is_word false v = [])
  /\ squeeze (is_char SPACE) [SPACE] true (rstrip is_space v)
     = join [SPACE] (runs is_word false v)
  /\ squeeze (is_char SPACE) [SPACE] false (rstrip is_space v)
     = take_while is_word v
       ++ match runs is_word true v with
          | [] => []
          | l => [SPACE] ++ join [SPACE] l
          end.
Proof.
  induction v as [|c v IH]; intros Hv.
  - repeat split; reflexivity.
  - inversion Hv as [|? ? Hc Hv']; subst.
    destruct (IH Hv') as (IHa & IHb & IHc).
    destruct (plain_kind _ Hc) as [(Hw & Hs & Hb) | (-> & Hw & Hs)].
    + rewrite (rstrip_cons_keep _ _ Hs). cbn [runs take_while squeeze].
      rewrite Hw, Hb. split; [split; discriminate|].
      rewrite IHc, join_cons.
      split; [destruct (runs is_word true v); reflexivity | reflexivity].
    + rewrite (rstrip_cons_space _ _ Hs). cbn [runs take_while].
      rewrite Hw. cbn [app].
      destruct (rstrip is_space v) as [|d r] eqn:Er.
      * assert (Hn : runs is_word false v = []) by (apply IHa; reflexivity).
        rewrite Hn. repeat split; reflexivity.
      * assert (Hn : runs is_word false v <> []).
        { intros Hn. apply IHa in Hn. discriminate. }
        split; [split; [discriminate | intros; contradiction]|].
        rewrite <- Er in IHb, IHc |- *.
        cbn [squeeze]. unfold is_char at 1 3. rewrite N.eqb_refl.
        rewrite IHb. split; [reflexivity|].
        destruct (runs is_word false v); [contradiction | reflexivity].
Qed.

Lemma strip_joined : forall v, all letter_or_blank v ->
  squeeze (is_char SPACE) [SPACE] false (strip is_space v)
  = join [SPACE] (runs is_word false v).
Proof.
  unfold strip, lstrip. induction v as [|c v IH]; intros Hv; [reflexivity|].
  inversion Hv as [|? ? Hc Hv']; subst.
  destruct (plain_kind _ Hc) as [(Hw & Hs & Hb) | (-> & Hw & Hs)].
  - cbn [drop_while]. rewrite Hs, (rstrip_cons_keep _ _ Hs).
    cbn [squeeze runs]. rewrite Hb, Hw.
    destruct (rstrip_joined v Hv') as (_ & _ & ->).
    rewrite join_cons. cbn [take_while]. rewrite Hw.
    destruct (runs is_word true v); reflexivity.
  - cbn [drop_while runs]. rewrite Hs, Hw. apply IH, Hv'.
Qed.

(** *** The first six steps leave letters and blanks *)

Variable stopwords : list str.

Lemma alnum_below c : ascii_alnum c = true -> c < 128.
Proof.
  unfold ascii_alnum, ascii_letter, ascii_upper, ascii_lower, ascii_digit,
    between.
  rewrite !orb_true_iff, !andb_true_iff, !N.leb_le. lia.
Qed.

Lemma alnum_no_digit_letter c :
  is_digit c = false -> non_alnum c = false -> letter_or_blank c = true.
Proof.
  unfold non_alnum. intros Hd Ha. apply negb_false_iff in Ha.
  rewrite (digit_ascii _ _ _ U) in Hd by (apply alnum_below, Ha).
  unfold ascii_alnum in Ha. rewrite Hd, orb_false_r in Ha.
  unfold letter_or_blank. rewrite Ha. reflexivity.
Qed.

Lemma replace_char_Forall (P : char -> Prop) a b s :
  P b -> Forall P s -> Forall P (replace_char a b s).
Proof.
  intros Hb Hs. unfold replace_char. apply Forall_map.
  eapply List.Forall_impl; [|exact Hs].
  intros c Hc. cbn. destruct (c =? a); assumption.
Qed.

Lemma clean_front_plain s :
  all letter_or_blank (clean_front is_word is_space is_digit s).
Proof.
  unfold clean_front, re_special, re_digits, plus. cbv zeta.
  rewrite !(re_sub_plus is_word non_alnum).
  apply (squeeze_rest_from non_alnum [SPACE]
           (fun c => letter_or_blank c = true)
           (fun c => is_digit c = false)).
  - repeat constructor.
  - intros c. apply alnum_no_digit_letter.
  - apply replace_char_Forall.
    + apply (letter_no_digit _ _ _ U). reflexivity.
    + rewrite re_sub_plus. apply squeeze_rest; [constructor | auto].
Qed.

(** *** The closed form of [clean] *)

Hypothesis stopwords_fine : stopwords_ok stopwords = true.

Lemma clean_unfold s :
  clean is_word is_space is_digit stopwords s
  = re_sub is_word re_blanks [SPACE]
      (strip is_space
         (re_sub is_word (re_stopwords is_space stopwords) []
            (re_sub is_word (re_short is_word) []
               (clean_front is_word is_space is_digit s)))).
Proof. reflexivity. Qed.

Lemma clean_tail v : all letter_or_blank v ->
  re_sub is_word re_blanks [SPACE]
    (strip is_space
       (re_sub is_word (re_stopwords is_space stopwords) []
          (re_sub is_word (re_short is_word) [] v)))
  = join [SPACE] (List.filter (kept stopwords) (tokens is_word v)).
Proof.
  intros Hv. unfold re_blanks, plus. rewrite re_sub_plus.
  rewrite (sub_short _ _ _ U).
  assert (H7 : all letter_or_blank (remove_tokens is_word is_space short v))
    by (apply edit_Forall, Hv).
  rewrite (sub_stopwords _ _ _ _ U stopwords_fine) by exact H7.
  rewrite strip_joined by (apply edit_Forall, H7).
  f_equal. unfold remove_tokens, tokens.
  destruct (runs_edit is_word is_space true (is_stopword stopwords)
              (edit_words is_word is_space false short Outside v)) as (-> & _).
  destruct (runs_edit is_word is_space false short v) as (-> & _).
  rewrite filter_twice. reflexivity.
Qed.

Theorem clean_closed s :
  clean is_word is_space is_digit stopwords s
  = join [SPACE]
      (List.filter (kept stopwords)
         (tokens is_word (clean_front is_word is_space is_digit s))).
Proof. rewrite clean_unfold. apply clean_tail, clean_front_plain. Qed.
End Normal.

(** ** Joining and splitting *)

Lemma join_Forall (P : char -> Prop) sep ws :
  Forall P sep -> Forall (Forall P) ws -> Forall P (join sep ws).
Proof.
  intros Hsep. induction 1 as [|w ws Hw Hws IH]; [constructor|].
  rewrite join_cons. apply Forall_app. split; [exact Hw|].
  destruct ws; [constructor|]. apply Forall_app. split; assumption.
Qed.

Section JoinRuns.
Variable p : char -> bool.
Variable x : char.
Hypothesis p_x : p x = false.

Lemma runs_inside : forall w t, all p w ->
  match t with c :: _ => p c = false | [] => True end ->
  runs p true (w ++ t) = runs p false t.
Proof.
  induction w as [|c w IH]; intros t Hw Ht.
  - destruct t as [|c t]; [reflexivity|]. cbn [app runs]. rewrite Ht.
    reflexivity.
  - inversion Hw as [|? ? Hc Hw']; subst. cbn [app runs]. rewrite Hc.
    apply IH; assumption.
Qed.

Lemma take_while_stop : forall w t, all p w ->
  match t with c :: _ => p c = false | [] => True end ->
  take_while p (w ++ t) = w.
Proof.
  intros w t Hw Ht. rewrite take_while_app_all by exact Hw.
  destruct t as [|c t]; cbn [take_while]; [|rewrite Ht];
    apply app_nil_r.
Qed.

Lemma runs_word : forall w t, w <> [] -> all p w ->
  match t with c :: _ => p c = false | [] => True end ->
  runs p false (w ++ t) = w :: runs p false t.
Proof.
  intros [|c w] t Hne Hw Ht; [congruence|].
  pose proof (take_while_stop _ _ Hw Ht) as Htw.
  inversion Hw as [|? ? Hc Hw']; subst.
  cbn [app runs]. rewrite Hc. f_equal; [exact Htw|].
  apply runs_inside; assumption.
Qed.

(** Splitting a joined list gives the list back. *)
Lemma runs_join : forall ws,
  Forall (fun w => w <> [] /\ all p w) ws ->
  runs p false (join [x] ws) = ws.
Proof.
  induction 1 as [|w ws [Hne Hw] Hws IH]; [reflexivity|].
  rewrite join_cons. destruct ws as [|w2 ws].
  - rewrite runs_word by (auto; exact I). reflexivity.
  - rewrite runs_word; [| exact Hne | exact Hw | exact p_x].
    f_equal. cbn [app runs]. rewrite p_x. exact IH.
Qed.
End JoinRuns.

Lemma runs_ext p q : forall s b,
  Forall (fun c => p c = q c) s -> runs p b s = runs q b s.
Proof.
  assert (Htw : forall s, Forall (fun c => p c = q c) s ->
                  take_while p s = take_while q s).
  { induction 1 as [|c s Hc Hs IH]; [reflexivity|].
    cbn [take_while]. rewrite Hc, IH. reflexivity. }
  induction s as [|c s IH]; intros b Hs; [reflexivity|].
  pose proof (Htw _ Hs) as Ht.
  inversion Hs as [|? ? Hc Hs']; subst.
  cbn [runs]. rewrite <- Hc. rewrite !IH by assumption.
  destruct (p c); [destruct b|]; try reflexivity.
  f_equal. exact Ht.
Qed.

(** Every character is in a run or outside the class. *)
Lemma runs_cover p (P : char -> Prop) :
  (forall c, p c = false -> P c) ->
  forall s b, Forall (Forall P) (runs p b s) ->
    Forall P (if b then drop_while p s else s).
Proof.
  intros HP. induction s as [|c s IH]; intros b H.
  - destruct b; constructor.
  - cbn [runs] in H. destruct (p c) eqn:E.
    + destruct b.
      * cbn [drop_while]. rewrite E. apply (IH true). exact H.
      * inversion H as [|? ? Hw Hr]; subst.
        rewrite <- (take_drop_while p (c :: s)).
        apply Forall_app. split; [exact Hw|].
        cbn [drop_while]. rewrite E. apply (IH true). exact Hr.
    + assert (Hs : Forall P (c :: s))
        by (constructor; [apply HP, E | apply (IH false), H]).
      destruct b; [|exact Hs]. cbn [drop_while]. rewrite E. exact Hs.
Qed.

(** Runs of a class inside the runs of a larger class. *)
Section Refine.
Variables p q : char -> bool.
Hypothesis p_q : forall c, p c = true -> q c = true.

Lemma take_while_take_while : forall s,
  take_while p (take_while q s) = take_while p s.
Proof.
  induction s as [|c s IH]; [reflexivity|].
  cbn [take_while]. destruct (q c) eqn:Eq.
  - cbn [take_while]. rewrite IH. reflexivity.
  - destruct (p c) eqn:Ep; [|reflexivity].
    rewrite (p_q _ Ep) in Eq. discriminate.
Qed.

Lemma runs_refine : forall s,
  runs p false s = concat (map (runs p false) (runs q false s))
  /\ forall b,
       runs p b s
       = runs p b (take_while q s)
         ++ concat (map (runs p false) (runs q true s)).
Proof.
  induction s as [|c s [IHa IHb]]; [split; [|intros b]; reflexivity|].
  assert (HB : forall b,
    runs p b (c :: s)
    = runs p b (take_while q (c :: s))
      ++ concat (map (runs p false) (runs q true (c :: s)))).
  { intros b. cbn [take_while runs]. destruct (q c) eqn:Eq.
    - cbn [runs]. destruct (p c) eqn:Ep.
      + destruct b; [apply IHb|].
        rewrite (IHb true). cbn [app]. f_equal.
        cbn [take_while]. rewrite Ep. f_equal.
        symmetry. apply take_while_take_while.
      + apply IHb.
    - destruct (p c) eqn:Ep; [rewrite (p_q _ Ep) in Eq; discriminate|].
      cbn [runs app]. exact IHa. }
  split; [|exact HB].
  rewrite (HB false). cbn [runs]. destruct (q c) eqn:Eq.
  - cbn [map concat]. reflexivity.
  - cbn [take_while]. rewrite Eq. cbn [runs app].
    destruct (p c) eqn:Ep; [rewrite (p_q _ Ep) in Eq; discriminate|].
    reflexivity.
Qed.
End Refine.

(** ** The first six steps, rule by rule *)

Section Front.
Variables is_word is_space is_digit : char -> bool.
Hypothesis U : unicode_laws is_word is_space is_digit.

Lemma blankify_Forall s :
  Forall (fun c => is_word c = true \/ c = SPACE)
         (map (fun c => if is_word c then c else SPACE) s).
Proof.
  apply Forall_map. apply Forall_forall. intros c _. cbn.
  destruct (is_word c) eqn:E; auto.
Qed.

Lemma space_is_blank c :
  is_word c = true \/ c = SPACE -> is_space c = is_char SPACE c.
Proof.
  unfold is_char. intros [H | ->].
  - rewrite (word_not_space _ _ _ U _ H). symmetry. apply N.eqb_neq.
    intros ->. rewrite (blank_not_word _ _ _ U) in H. discriminate.
  - rewrite (space_blank _ _ _ U). reflexivity.
Qed.

(** Steps 1 and 2 together squeeze the runs of non-word characters. *)
Lemma front_two s :
  re_sub is_word (re_spaces is_space) [SPACE]
    (re_sub is_word (re_nonword is_word) [SPACE] s)
  = squeeze (fun c => negb (is_word c)) [SPACE] false s.
Proof.
  unfold re_spaces, plus, re_sub at 2. rewrite re_sub_plus.
  rewrite (sub_nonword_map _ _ _ U).
  rewrite (squeeze_ext is_space [SPACE] (is_char SPACE)).
  - rewrite <- (squeeze_map (fun c => negb (is_word c)) SPACE);
      [| rewrite (blank_not_word _ _ _ U); reflexivity].
    f_equal. apply map_ext. intros c. destruct (is_word c); reflexivity.
  - eapply List.Forall_impl; [|apply blankify_Forall].
    intros c Hc. apply space_is_blank, Hc.
Qed.

Lemma rules_two s :
  rule2 is_space (rule1 is_word s)
  = squeeze (fun c => negb (is_word c)) [SPACE] false s.
Proof.
  unfold rule2, rule1.
  assert (E : squeeze (fun c => negb (is_word c) || (c =? SPACE)) [SPACE] false s
              = squeeze (fun c => negb (is_word c)) [SPACE] false s).
  { apply squeeze_ext. apply Forall_forall. intros c _.
    destruct (c =? SPACE) eqn:Ec; [|apply orb_false_r].
    apply N.eqb_eq in Ec. subst. rewrite (blank_not_word _ _ _ U).
    reflexivity. }
  rewrite E.
  rewrite (squeeze_ext is_space [SPACE] (fun c => negb (is_word c))).
  - apply squeeze_twice. rewrite (blank_not_word _ _ _ U). reflexivity.
  - apply squeeze_rest.
    + constructor; [|constructor].
      rewrite (space_blank _ _ _ U), (blank_not_word _ _ _ U). reflexivity.
    + intros c Hc. apply negb_false_iff in Hc. rewrite Hc.
      apply (word_not_space _ _ _ U), Hc.
Qed.

Lemma front_rules s :
  clean_front is_word is_space is_digit s
  = rule6 (rule5 (rule4 is_digit
      (rule3 is_word is_space is_digit
         (rule2 is_space (rule1 is_word s))))).
Proof.
  unfold clean_front. cbv zeta. rewrite front_two, rules_two.
  rewrite (sub_number _ _ _ U).
  unfold re_digits, re_special, plus. rewrite !re_sub_plus.
  rewrite squeeze_delete. reflexivity.
Qed.

(** *** Text whose word characters are all ASCII letters *)

Lemma take_while_blankify : forall s,
  take_while is_word (map (fun c => if is_word c then c else SPACE) s)
  = take_while is_word s.
Proof.
  induction s as [|c s IH]; [reflexivity|].
  cbn [map take_while]. destruct (is_word c) eqn:E.
  - rewrite E, IH. reflexivity.
  - rewrite (blank_not_word _ _ _ U). reflexivity.
Qed.

Lemma runs_blankify : forall s b,
  runs is_word b (map (fun c => if is_word c then c else SPACE) s)
  = runs is_word b s.
Proof.
  induction s as [|c s IH]; intros b; [reflexivity|].
  pose proof (take_while_blankify (c :: s)) as Ht.
  cbn [map runs] in *. destruct (is_word c) eqn:E.
  - rewrite E, !IH. destruct b; [reflexivity|]. f_equal. exact Ht.
  - rewrite (blank_not_word _ _ _ U). apply IH.
Qed.

Lemma simple_blankify s :
  Forall (simple is_word) s ->
  all letter_or_blank (map (fun c => if is_word c then c else SPACE) s).
Proof.
  intros Hs. apply Forall_map. eapply List.Forall_impl; [|exact Hs].
  intros c [Hl | Hn]; cbn.
  - rewrite (letter_word _ _ _ U _ Hl). unfold letter_or_blank.
    rewrite Hl. reflexivity.
  - rewrite Hn. reflexivity.
Qed.

Lemma plain_not_numeric v :
  all letter_or_blank v ->
  Forall (fun x => numeric is_digit x = false) (runs is_word false v).
Proof.
  intros Hv.
  pose proof (runs_shape is_word v false) as H1.
  pose proof (runs_from is_word (fun c => letter_or_blank c = true) v false Hv)
    as H2.
  apply Forall_forall. intros x Hx.
  rewrite Forall_forall in H1, H2.
  destruct (H1 _ Hx) as [Hne Hw]. specialize (H2 _ Hx).
  destruct x as [|c x]; [congruence|].
  inversion Hw as [|? ? Hc _]; subst. inversion H2 as [|? ? Hp _]; subst.
  unfold numeric. cbn [forallb].
  destruct (plain_kind _ _ _ U _ Hp) as [(_ & _ & Hb) | (-> & Hn & _)].
  - destruct (letter_or_blank_cases _ Hp) as [Hl | ->].
    + rewrite (letter_no_digit _ _ _ U _ Hl). reflexivity.
    + rewrite (blank_no_digit _ _ _ U). reflexivity.
  - congruence.
Qed.

Lemma plain_no_digit v :
  all letter_or_blank v -> Forall (fun c => is_digit c = false) v.
Proof.
  apply List.Forall_impl. intros c Hc.
  destruct (letter_or_blank_cases _ Hc) as [Hl | ->].
  - apply (letter_no_digit _ _ _ U), Hl.
  - apply (blank_no_digit _ _ _ U).
Qed.

Lemma plain_replace v :
  all letter_or_blank v -> replace_char E_ACUTE LETTER_E v = v.
Proof.
  intros Hv. unfold replace_char. rewrite <- (map_id v) at 2.
  apply map_ext_Forall. eapply List.Forall_impl; [|exact Hv].
  intros c Hc. cbn. destruct (c =? E_ACUTE) eqn:E; [|reflexivity].
  apply N.eqb_eq in E. subst. discriminate.
Qed.

Lemma plain_special c :
  letter_or_blank c = true -> non_alnum c = is_char SPACE c.
Proof.
  intros Hc. unfold non_alnum, is_char.
  destruct (letter_or_blank_cases _ Hc) as [Hl | ->]; [|reflexivity].
  rewrite (letter_alnum _ Hl). symmetry. apply N.eqb_neq.
  intros ->. discriminate.
Qed.

(** On such text the six steps leave every word as it is. *)
Lemma front_simple s :
  Forall (simple is_word) s ->
  tokens is_word (clean_front is_word is_space is_digit s)
  = tokens is_word s.
Proof.
  intros Hs. unfold clean_front, tokens. cbv zeta.
  set (x1 := re_sub is_word (re_nonword is_word) [SPACE] s).
  set (x2 := re_sub is_word (re_spaces is_space) [SPACE] x1).
  assert (P1 : all letter_or_blank x1).
  { unfold x1, re_sub. rewrite (sub_nonword_map _ _ _ U).
    apply simple_blankify, Hs. }
  assert (T1 : runs is_word false x1 = runs is_word false s).
  { unfold x1, re_sub. rewrite (sub_nonword_map _ _ _ U).
    apply runs_blankify. }
  assert (E2 : x2 = squeeze is_space [SPACE] false x1)
    by (unfold x2, re_spaces, plus; apply re_sub_plus).
  assert (P2 : all letter_or_blank x2).
  { rewrite E2. apply squeeze_Forall; [repeat constructor | exact P1]. }
  assert (T2 : runs is_word false x2 = runs is_word false x1).
  { rewrite E2. apply runs_squeeze.
    - apply (space_blank _ _ _ U).
    - apply (space_not_word _ _ _ U).
    - reflexivity. }
  rewrite (sub_number _ _ _ U).
  unfold remove_tokens.
  destruct (edit_id is_word is_space false (numeric is_digit) x2) as [-> _];
    [| apply plain_not_numeric, P2].
  unfold re_digits, re_special, plus. rewrite !re_sub_plus.
  rewrite (squeeze_none is_digit) by (apply plain_no_digit, P2).
  rewrite plain_replace by exact P2.
  rewrite (squeeze_ext non_alnum [SPACE] (is_char SPACE))
    by (eapply List.Forall_impl; [|exact P2]; apply plain_special).
  rewrite runs_squeeze.
  - rewrite T2. exact T1.
  - unfold is_char. apply N.eqb_refl.
  - unfold is_char. intros c Hc. apply N.eqb_eq in Hc. subst.
    apply (blank_not_word _ _ _ U).
  - reflexivity.
Qed.

Lemma plain_simple v : all letter_or_blank v -> Forall (simple is_word) v.
Proof.
  apply List.Forall_impl. intros c Hc. unfold simple.
  destruct (letter_or_blank_cases _ Hc) as [Hl | ->]; [left; exact Hl|].
  right. apply (blank_not_word _ _ _ U).
Qed.
End Front.

(** ** The cleaner as a whole *)

Lemma filter_none {A} (f : A -> bool) l :
  Forall (fun x => f x = false) l -> List.filter f l = [].
Proof.
  induction 1 as [|a l Ha Hl IH]; [reflexivity|].
  cbn [List.filter]. rewrite Ha. exact IH.
Qed.

Lemma Forall_concat {A} (P : A -> Prop) ls :
  Forall (Forall P) ls -> Forall P (concat ls).
Proof.
  induction 1 as [|l ls Hl Hls IH]; [constructor|].
  cbn [concat]. apply Forall_app. split; assumption.
Qed.

Section Strip.
Variable is_space : char -> bool.

Lemma drop_while_Forall (P : char -> Prop) p s :
  Forall P s -> Forall P (drop_while p s).
Proof.
  induction 1 as [|c s Hc Hs IH]; [constructor|].
  cbn [drop_while]. destruct (p c); [exact IH | constructor; assumption].
Qed.

Lemma rstrip_Forall (P : char -> Prop) s :
  Forall P s -> Forall P (rstrip is_space s).
Proof.
  induction 1 as [|c s Hc Hs IH]; [constructor|].
  cbn [rstrip]. destruct (rstrip is_space s) as [|d r].
  - destruct (is_space c); repeat constructor. exact Hc.
  - constructor; assumption.
Qed.

Lemma strip_Forall (P : char -> Prop) s :
  Forall P s -> Forall P (strip is_space s).
Proof. intros H. apply rstrip_Forall, drop_while_Forall, H. Qed.
End Strip.

Section CleanerFacts.
Variables is_word is_space is_digit : char -> bool.
Variable stopwords : list str.
Hypothesis U : unicode_laws is_word is_space is_digit.
Hypothesis stopwords_fine : stopwords_ok stopwords = true.

Local Abbreviation cleaned := (clean is_word is_space is_digit stopwords).
Local Abbreviation front := (clean_front is_word is_space is_digit).

(** The six steps keep every property of characters that the blank and
    the letter e have. *)
Lemma front_Forall (P : char -> Prop) s :
  P SPACE -> P LETTER_E -> Forall P s -> Forall P (front s).
Proof.
  intros Hb He Hs. unfold clean_front, re_sub. cbv zeta.
  repeat first
    [ apply sub_from_Forall; [repeat constructor; assumption|]
    | apply replace_char_Forall; [assumption|] ].
  exact Hs.
Qed.

(** The words that [clean] keeps. *)
Lemma kept_words s :
  Forall (fun w => w <> [] /\ all ascii_letter w /\ kept stopwords w = true)
         (List.filter (kept stopwords) (tokens is_word (front s))).
Proof.
  pose proof (filter_sound (kept stopwords) (tokens is_word (front s))) as H1.
  pose proof (filter_Forall _ (kept stopwords) _
                (runs_shape is_word (front s) false)) as H2.
  pose proof (filter_Forall _ (kept stopwords) _
                (runs_from is_word _ (front s) false
                   (clean_front_plain _ _ _ U s))) as H3.
  fold (tokens is_word (front s)) in H2, H3.
  rewrite Forall_forall in H1, H2, H3. apply Forall_forall.
  intros w Hw. destruct (H2 _ Hw) as [Hne Hword]. specialize (H3 _ Hw).
  split; [exact Hne|]. split; [|apply H1, Hw].
  unfold all in *. rewrite Forall_forall in Hword, H3. apply Forall_forall.
  intros c Hc. rewrite <- (plain_word _ _ _ U) by (apply H3, Hc).
  apply Hword, Hc.
Qed.

Lemma kept_words_plain s :
  all letter_or_blank (cleaned s).
Proof.
  rewrite (clean_closed _ _ _ U _ stopwords_fine).
  apply join_Forall; [repeat constructor|].
  eapply List.Forall_impl; [|apply kept_words].
  intros w (_ & Hw & _). eapply List.Forall_impl; [|exact Hw].
  intros c Hc. unfold letter_or_blank. cbn in Hc. rewrite Hc. reflexivity.
Qed.

Lemma tokens_joined ws :
  Forall (fun w => w <> [] /\ all ascii_letter w /\ kept stopwords w = true) ws ->
  tokens is_word (join [SPACE] ws) = ws.
Proof.
  intros H. unfold tokens. apply runs_join.
  - apply (blank_not_word _ _ _ U).
  - eapply List.Forall_impl; [|exact H].
    intros w (Hne & Hw & _). split; [exact Hne|].
    eapply List.Forall_impl; [|exact Hw]. apply (letter_word _ _ _ U).
Qed.

(** On text whose word characters are ASCII letters, [clean] keeps the
    words of the text that are kept, joined by single spaces. *)
Lemma clean_simple s :
  Forall (simple is_word) s ->
  cleaned s = join [SPACE] (List.filter (kept stopwords) (tokens is_word s)).
Proof.
  intros Hs. rewrite (clean_closed _ _ _ U _ stopwords_fine).
  rewrite (front_simple _ _ _ U) by exact Hs. reflexivity.
Qed.

Lemma clean_fixed ws :
  Forall (fun w => w <> [] /\ all ascii_letter w /\ kept stopwords w = true) ws ->
  cleaned (join [SPACE] ws) = join [SPACE] ws.
Proof.
  intros H. rewrite clean_simple.
  - rewrite tokens_joined by exact H. f_equal. apply filter_all_true.
    eapply List.Forall_impl; [|exact H]. intros w (_ & _ & Hk). exact Hk.
  - apply (plain_simple _ _ _ U). apply join_Forall; [repeat constructor|].
    eapply List.Forall_impl; [|exact H].
    intros w (_ & Hw & _). eapply List.Forall_impl; [|exact Hw].
    intros c Hc. unfold letter_or_blank. cbn in Hc. rewrite Hc. reflexivity.
Qed.

(** A single word of at least three letters that is no stopword is left
    as it is. *)
Lemma clean_word w :
  all ascii_letter w -> (3 <= length w)%nat -> ~ In w stopwords ->
  cleaned w = w.
Proof.
  intros Hw Hlen Hin.
  apply (clean_fixed [w]). constructor; [|constructor].
  split; [destruct w; [cbn in Hlen; lia | discriminate]|].
  split; [exact Hw|]. unfold kept, short, is_stopword.
  apply andb_true_iff. split; apply negb_true_iff.
  - apply Nat.leb_gt. lia.
  - destruct (mem w stopwords) eqn:E; [|reflexivity].
    apply mem_In in E. contradiction.
Qed.

Lemma clean_nil : cleaned [] = [].
Proof. reflexivity. Qed.
End CleanerFacts.

(** ** The concrete environment satisfies what the proofs assume *)

Lemma latin1_laws : unicode_laws latin1_word latin1_space latin1_digit.
Proof.
  constructor.
  - intros c Hc.
    assert (H1 : forall lo hi, 128 <= lo -> between lo hi c = false).
    { intros lo hi H. unfold between. apply andb_false_iff. left.
      apply N.leb_gt. lia. }
    assert (H2 : forall k, 128 <= k -> (c =? k) = false).
    { intros k H. apply N.eqb_neq. lia. }
    unfold latin1_word.
    rewrite (H2 170), (H1 178 179), (H2 181), (H1 185 186), (H1 188 190),
      (H1 192 214), (H1 216 246), (H1 248 255) by lia.
    rewrite !orb_false_r. reflexivity.
  - reflexivity.
  - reflexivity.
  - intros c H. unfold latin1_space, between in H.
    unfold latin1_word, ascii_alnum, ascii_letter, ascii_upper, ascii_lower,
      ascii_digit, between, UNDERSCORE.
    rewrite !orb_true_iff, !andb_true_iff, !N.leb_le, !N.eqb_eq in H.
    rewrite !orb_false_iff, !andb_false_iff, !N.leb_gt, !N.eqb_neq.
    lia.
  - intros c H. unfold latin1_digit in H.
    unfold latin1_word, ascii_alnum. rewrite H, orb_true_r. reflexivity.
Qed.

Lemma nltk_english_ok : stopwords_ok nltk_english = true.
Proof. vm_compute. reflexivity. Qed.

Lemma nltk_english_closed : stopwords_closed nltk_english = true.
Proof. vm_compute. reflexivity. Qed.

(** ** The claims about the cleaner *)

Section CleanerClaims.
Variables is_word is_space is_digit : char -> bool.
Variable stopwords : list str.
Hypothesis U : unicode_laws is_word is_space is_digit.
Hypothesis stopwords_fine : stopwords_ok stopwords = true.

Local Abbreviation cleaned := (clean is_word is_space is_digit stopwords).
Local Abbreviation front := (clean_front is_word is_space is_digit).

(** C1.  For every input string of the cleaner, which is lower-cased
    text (the loader calls [clean] on the result of [str.lower], so the
    input has no upper-case ASCII letter), the output of [clean] has no
    digit character, no character other than the lower-case letters a-z
    and the space, and no white-space delimited token of fewer than
    three characters. *)
Theorem clean_output_of_lowercase s :
  Forall (fun c => ascii_upper c = false) s ->
  cleaner_output_ok is_space is_digit
    (clean is_word is_space is_digit stopwords s).
Proof.
  intros Hs.
  assert (Hlow : Forall (fun c => ascii_lower c = true \/ c = SPACE) (cleaned s)).
  { rewrite (clean_closed _ _ _ U _ stopwords_fine).
    apply join_Forall; [repeat constructor; right; reflexivity|].
    pose proof (kept_words is_word is_space is_digit stopwords U s) as Hk.
    pose proof (filter_Forall _ (kept stopwords) _
                  (runs_from is_word _ (front s) false
                     (front_Forall is_word is_space is_digit
                        (fun c => ascii_upper c = false) s
                        eq_refl eq_refl Hs))) as Hu.
    fold (tokens is_word (front s)) in Hu.
    rewrite Forall_forall in Hk, Hu. apply Forall_forall. intros w Hw.
    destruct (Hk _ Hw) as (_ & Hl & _). specialize (Hu _ Hw).
    unfold all in Hl. rewrite Forall_forall in Hl, Hu. apply Forall_forall.
    intros c Hc. left. specialize (Hl _ Hc). specialize (Hu _ Hc).
    unfold ascii_letter in Hl. cbn in Hu. rewrite Hu in Hl. exact Hl. }
  split; [|split; [exact Hlow|]].
  - eapply List.Forall_impl; [|exact Hlow]. intros c [Hc | ->].
    + apply (letter_no_digit _ _ _ U), lower_letter, Hc.
    + apply (blank_no_digit _ _ _ U).
  - rewrite (clean_closed _ _ _ U _ stopwords_fine).
    pose proof (kept_words is_word is_space is_digit stopwords U s) as Hk.
    unfold split_ws. rewrite runs_join.
    + eapply List.Forall_impl; [|exact Hk]. intros w (_ & _ & Hkept).
      unfold kept, short in Hkept. apply andb_true_iff in Hkept as [H _].
      apply negb_true_iff, Nat.leb_gt in H. lia.
    + rewrite (space_blank _ _ _ U). reflexivity.
    + eapply List.Forall_impl; [|exact Hk]. intros w (Hne & Hl & _).
      split; [exact Hne|]. eapply List.Forall_impl; [|exact Hl].
      intros c Hc. cbn in Hc |- *.
      rewrite (letter_not_space _ _ _ U _ Hc). reflexivity.
Qed.

(** C2.  For every input string s, the cleaner is idempotent:
    clean(clean(s)) == clean(s). *)
Theorem clean_idempotent s :
  clean is_word is_space is_digit stopwords
    (clean is_word is_space is_digit stopwords s)
  = clean is_word is_space is_digit stopwords s.
Proof.
  rewrite (clean_closed _ _ _ U _ stopwords_fine s).
  apply (clean_fixed _ _ _ _ U stopwords_fine).
  apply (kept_words is_word is_space is_digit stopwords U).
Qed.

(** The last three rules, on letters and blanks. *)
Lemma rules_tail v : all letter_or_blank v ->
  rule9 is_space (rule8 is_word is_space stopwords (rule7 is_word is_space v))
  = join [SPACE] (List.filter (kept stopwords) (tokens is_word v)).
Proof.
  intros Hv. unfold rule9, rule8, rule7, remove_tokens.
  set (x := edit_words is_word is_space false (is_stopword stopwords) Outside
              (edit_words is_word is_space false short Outside v)).
  assert (Hx : all letter_or_blank x) by (apply edit_Forall, edit_Forall, Hv).
  rewrite (squeeze_ext is_space [SPACE] (is_char SPACE)).
  - rewrite (strip_joined _ _ _ U) by exact Hx. f_equal. unfold x, tokens.
    destruct (runs_edit is_word is_space false (is_stopword stopwords)
                (edit_words is_word is_space false short Outside v)) as (-> & _).
    destruct (runs_edit is_word is_space false short v) as (-> & _).
    rewrite filter_twice. reflexivity.
  - eapply List.Forall_impl; [|apply strip_Forall, Hx].
    intros c Hc. apply (plain_space _ _ _ U), Hc.
Qed.

(** C3.  For every input string, clean(s) equals the nine rules of
    section 4.1 applied one after the other in the listed order. *)
Theorem clean_refines_rules s :
  clean is_word is_space is_digit stopwords s
  = spec_clean is_word is_space is_digit stopwords s.
Proof.
  rewrite (clean_closed _ _ _ U _ stopwords_fine). unfold spec_clean.
  rewrite <- (front_rules _ _ _ U).
  symmetry. apply rules_tail, (clean_front_plain _ _ _ U).
Qed.

(** Text made of stopwords only is cleaned to nothing, when the pieces
    of the stopwords are short or stopwords themselves. *)
Lemma clean_only_stopwords s :
  stopwords_closed stopwords = true ->
  Forall (fun w => In w stopwords) (split_ws is_space s) ->
  cleaned s = [].
Proof.
  intros Hclosed Hs.
  assert (Hchars : forall w, In w stopwords ->
            Forall (fun c => ascii_lower c = true \/ c = APOSTROPHE) w).
  { intros w Hw. pose proof (stopwords_each _ stopwords_fine) as He.
    rewrite forallb_forall in He. specialize (He _ Hw).
    unfold stopword_ok in He. apply andb_true_iff in He as [_ He].
    apply List.Forall_forall. intros c Hc. rewrite forallb_forall in He.
    specialize (He _ Hc). apply orb_true_iff in He as [He | He];
      [left; exact He | right; apply N.eqb_eq, He]. }
  assert (Hword : forall c, ascii_lower c = true \/ c = APOSTROPHE ->
            simple is_word c /\ is_word c = ascii_word c).
  { intros c Hc. split.
    - destruct Hc as [Hc | ->]; [left; apply lower_letter, Hc|].
      right. rewrite (word_ascii _ _ _ U) by reflexivity. reflexivity.
    - apply (word_ascii _ _ _ U).
      destruct Hc as [Hc | ->]; [apply letter_below, lower_letter, Hc|].
      reflexivity. }
  assert (Hsimple : Forall (simple is_word) s).
  { apply (runs_cover (fun c => negb (is_space c)) (simple is_word)) with (b := false).
    - intros c Hc. apply negb_false_iff in Hc. right.
      apply (space_not_word _ _ _ U), Hc.
    - eapply List.Forall_impl; [|exact Hs]. intros w Hw.
      eapply List.Forall_impl; [|apply Hchars, Hw].
      intros c Hc. apply Hword, Hc. }
  rewrite (clean_simple _ _ _ _ U stopwords_fine) by exact Hsimple.
  rewrite filter_none; [reflexivity|].
  unfold tokens.
  destruct (runs_refine is_word (fun c => negb (is_space c))) with (s := s)
    as [-> _].
  { intros c Hc. rewrite (word_not_space _ _ _ U _ Hc). reflexivity. }
  apply Forall_concat, Forall_map.
  eapply List.Forall_impl; [|exact Hs]. intros w Hw. cbn beta.
  rewrite (runs_ext is_word ascii_word)
    by (eapply List.Forall_impl; [|apply Hchars, Hw]; intros c Hc; apply Hword, Hc).
  unfold stopwords_closed in Hclosed. rewrite forallb_forall in Hclosed.
  specialize (Hclosed _ Hw). rewrite forallb_forall in Hclosed.
  apply List.Forall_forall. intros x Hx. specialize (Hclosed _ Hx).
  unfold kept, short, is_stopword.
  apply orb_true_iff in Hclosed as [-> | ->];
    [reflexivity | apply andb_false_r].
Qed.
End CleanerClaims.

Lemma Forall_mem l ws :
  forallb (fun w => mem w ws) l = true -> Forall (fun w => In w ws) l.
Proof.
  intros H. apply List.Forall_forall. intros w Hw.
  rewrite forallb_forall in H. apply mem_In, H, Hw.
Qed.

(** C4.  For every input string composed entirely of white-space separated
    stopwords of the English stopword list, the cleaner returns the empty
    string. *)
Theorem clean_english_stopwords is_word is_space is_digit s :
  unicode_laws is_word is_space is_digit ->
  Forall (fun w => In w nltk_english) (split_ws is_space s) ->
  clean is_word is_space is_digit nltk_english s = [].
Proof.
  intros U Hs.
  apply (clean_only_stopwords _ _ _ _ U nltk_english_ok s nltk_english_closed Hs).
Qed.

(** The scenarios of section 8, on the cleaner. *)
Example clean_scenario_plants :
  clean_latin1 (py "the plants are growing rapidly in 2021.")
  = py "plants growing rapidly".
Proof. vm_compute. reflexivity. Qed.

Example clean_scenario_numbers : clean_latin1 (py "123 !!! 456") = [].
Proof. vm_compute. reflexivity. Qed.

(** Step 1 alone leaves one space per non-word character, rule 1 alone a
    single space per run; step 2 and rule 2 make them agree. *)
Example step1_differs_from_rule1 :
  re_sub latin1_word (re_nonword latin1_word) [SPACE] (py "a!!b") = py "a  b"
  /\ rule1 latin1_word (py "a!!b") = py "a b".
Proof. split; vm_compute; reflexivity. Qed.

Lemma clean_output_of_lowercase_witness :
  cleaner_output_ok latin1_space latin1_digit
    (clean_latin1 (py "the plants are growing rapidly in 2021.")).
Proof.
  apply (clean_output_of_lowercase latin1_word latin1_space latin1_digit
           nltk_english latin1_laws nltk_english_ok).
  repeat constructor.
Defined.

Lemma clean_idempotent_witness :
  clean_latin1 (clean_latin1 (py "The Plants are Growing rapidly in 2021."))
  = clean_latin1 (py "The Plants are Growing rapidly in 2021.").
Proof.
  apply (clean_idempotent latin1_word latin1_space latin1_digit nltk_english
           latin1_laws nltk_english_ok).
Defined.

Lemma clean_refines_rules_witness :
  clean_latin1 (py "it's 12 o'clock: ab1cd a_b x1 The plants")
  = spec_clean latin1_word latin1_space latin1_digit nltk_english
      (py "it's 12 o'clock: ab1cd a_b x1 The plants").
Proof.
  apply (clean_refines_rules latin1_word latin1_space latin1_digit nltk_english
           latin1_laws nltk_english_ok).
Defined.

Lemma clean_english_stopwords_witness :
  clean_latin1 (py " the and  don't you're yourselves shouldn't ") = [].
Proof.
  apply (clean_english_stopwords latin1_word latin1_space latin1_digit _
           latin1_laws).
  apply Forall_mem. vm_compute. reflexivity.
Defined.

(** ** The output directory *)

Section OutputDirectory.
Implicit Types (out : gmap string str) (l : list (string * str)).


Lemma lookup_writes_other l name : forall out,
  name ∉ l.*1 -> foldl write out l !! name = out !! name.
Proof.
  induction l as [|p l IH]; intros out Hn; [reflexivity|].
  cbn [foldl]. rewrite fmap_cons, not_elem_of_cons in Hn.
  destruct Hn as [Hne Hn]. rewrite IH by exact Hn.
  unfold write. apply lookup_insert_ne. congruence.
Qed.

Lemma lookup_writes l name doc : forall out,
  NoDup l.*1 -> (name, doc) ∈ l -> foldl write out l !! name = Some doc.
Proof.
  induction l as [|p l IH]; intros out Hnd Hin.
  - apply elem_of_nil in Hin. contradiction.
  - rewrite fmap_cons in Hnd. apply NoDup_cons in Hnd as [Hp Hnd].
    cbn [foldl]. apply elem_of_cons in Hin as [<- | Hin].
    + rewrite lookup_writes_other by exact Hp.
      unfold write. apply lookup_insert_eq.
    + apply IH; assumption.
Qed.
End OutputDirectory.

(** ** The files that can be opened *)

Lemma zip_take_names (names : list string) : forall (docs : list str) k,
  (length docs <= k)%nat -> zip (take k names) docs = zip names docs.
Proof.
  induction names as [|n names IH]; intros docs k Hk.
  - rewrite take_nil. reflexivity.
  - destruct docs as [|d docs]; [destruct k; reflexivity|].
    destruct k as [|k]; [cbn in Hk; lia|].
    cbn. f_equal. apply IH. cbn in Hk. lia.
Qed.


Lemma zip_nil_r (names : list string) : zip names ([] : list str) = [].
Proof. destruct names; reflexivity. Qed.

Section Writable.
Variable writable : string -> bool.

Lemma writable_prefix_all names :
  Forall (fun name => writable name = true) names ->
  writable_prefix writable names = names.
Proof.
  intros H. induction H as [|n names Hn _ IH]; [reflexivity|].
  cbn [writable_prefix]. rewrite Hn, IH. reflexivity.
Qed.

Lemma writable_prefix_Forall names :
  Forall (fun name => writable name = true) (writable_prefix writable names).
Proof.
  induction names as [|n names IH]; [constructor|].
  cbn [writable_prefix]. destruct (writable n) eqn:E; constructor; assumption.
Qed.

Lemma writable_prefix_length names :
  (length (writable_prefix writable names) <= length names)%nat.
Proof.
  induction names as [|n names IH]; [reflexivity|].
  cbn [writable_prefix]. destruct (writable n); cbn [length]; lia.
Qed.

Lemma writable_prefix_take names : forall k,
  writable_prefix writable (take k names)
  = take k (writable_prefix writable names).
Proof.
  induction names as [|n names IH]; intros k.
  - rewrite take_nil. cbn [writable_prefix]. rewrite take_nil. reflexivity.
  - destruct k as [|k]; [reflexivity|].
    cbn [take writable_prefix]. destruct (writable n); [|reflexivity].
    cbn [take]. rewrite <- IH. reflexivity.
Qed.

Lemma writable_prefix_is_take names :
  writable_prefix writable names
  = take (length (writable_prefix writable names)) names.
Proof.
  induction names as [|n names IH]; [reflexivity|].
  cbn [writable_prefix]. destruct (writable n); [|reflexivity].
  cbn [length take]. rewrite <- IH. reflexivity.
Qed.

(** A prefix of the names that is as long as its writable part. *)
Lemma writable_prefix_covers names :
  (length names <= length (writable_prefix writable names))%nat ->
  Forall (fun name => writable name = true) names.
Proof.
  intros H. pose proof (writable_prefix_length names) as Hle.
  pose proof (writable_prefix_is_take names) as Ht.
  rewrite firstn_all2 in Ht by lia. rewrite <- Ht.
  apply writable_prefix_Forall.
Qed.

Lemma writable_prefix_reaches names k :
  (k <= length names)%nat ->
  Forall (fun name => writable name = true) (take k names) ->
  (k <= length (writable_prefix writable names))%nat.
Proof.
  intros Hk Hw. pose proof (writable_prefix_take names k) as Ht.
  rewrite (writable_prefix_all _ Hw) in Ht.
  apply (f_equal length) in Ht. rewrite !length_take in Ht. lia.
Qed.

Lemma writer_outcome_nil names : writer_outcome writable names [] = Ok ().
Proof. reflexivity. Qed.

Lemma writer_outcome_step name names doc docs :
  writable name = true ->
  writer_outcome writable (name :: names) (doc :: docs)
  = writer_outcome writable names docs.
Proof.
  intros H. unfold writer_outcome. cbn [writable_prefix]. rewrite H.
  reflexivity.
Qed.

Lemma writer_outcome_stop name names doc docs :
  writable name = false ->
  writer_outcome writable (name :: names) (doc :: docs) = Raise OSError.
Proof.
  intros H. unfold writer_outcome. cbn [writable_prefix]. rewrite H.
  reflexivity.
Qed.

Lemma writer_outcome_ok names (docs : list str) :
  (length docs <= length (writable_prefix writable names))%nat ->
  writer_outcome writable names docs = Ok ().
Proof.
  intros H. unfold writer_outcome. apply Nat.leb_le in H. rewrite H.
  reflexivity.
Qed.

Lemma writer_outcome_ok_inv names (docs : list str) :
  writer_outcome writable names docs = Ok () ->
  (length docs <= length (writable_prefix writable names))%nat.
Proof.
  unfold writer_outcome.
  destruct (Nat.leb_spec (length docs)
              (length (writable_prefix writable names))) as [H | H].
  - intros _. exact H.
  - destruct (_ <? _)%nat; discriminate.
Qed.
Lemma writable_prefix_forallb names :
  forallb writable names
  = (length names <=? length (writable_prefix writable names))%nat.
Proof.
  induction names as [|n names IH]; [reflexivity|].
  cbn [forallb writable_prefix]. destruct (writable n); [|reflexivity].
  cbn [andb length]. rewrite IH. reflexivity.
Qed.

(** With as many names as documents the loop cannot run out of names. *)
Lemma writer_outcome_aligned names (docs : list str) :
  length names = length docs ->
  writer_outcome writable names docs
  = if forallb writable names then Ok () else Raise OSError.
Proof.
  intros Hlen. unfold writer_outcome.
  rewrite writable_prefix_forallb, Hlen.
  destruct (Nat.leb_spec (length docs)
              (length (writable_prefix writable names))) as [H | H];
    [reflexivity|].
  apply Nat.ltb_lt in H. rewrite H. reflexivity.
Qed.
End Writable.

(** ** The loader and the writer *)

Section NotebookFacts.
Variables is_word is_space is_digit : char -> bool.
Variable stopwords : list str.
Variable lower : str -> str.
Variable en_core_web_sm : str -> Doc.
Variable writable : string -> bool.

Local Abbreviation process' :=
  (process is_word is_space is_digit stopwords lower en_core_web_sm).
Local Abbreviation load_one' :=
  (load_one is_word is_space is_digit stopwords lower en_core_web_sm).
Local Abbreviation loader_loop' :=
  (loader_loop is_word is_space is_digit stopwords lower en_core_web_sm).
Local Abbreviation loader' :=
  (loader is_word is_space is_digit stopwords lower en_core_web_sm).
Local Abbreviation processed' :=
  (processed is_word is_space is_digit stopwords lower en_core_web_sm).
Local Abbreviation notebook' :=
  (notebook is_word is_space is_digit stopwords lower en_core_web_sm
     writable).

Lemma load_one_ok st file e st' :
  load_one' st file e = (st', Ok ()) ->
  exists d, processed' (file, e) d /\ st' = grown st [file] [d].
Proof.
  unfold load_one. destruct e as [raw | |]; try discriminate.
  destruct (process' raw) as [d|x] eqn:E; [|discriminate].
  intros H. inversion H; subst. exists d. split; [|reflexivity].
  exists raw. split; [reflexivity | exact E].
Qed.

Lemma load_one_processed st file e d :
  processed' (file, e) d -> load_one' st file e = (grown st [file] [d], Ok ()).
Proof.
  intros (raw & He & Hp). cbn in He. subst e. unfold load_one.
  rewrite Hp. reflexivity.
Qed.

Lemma grown_nil st : grown st [] [] = st.
Proof. destruct st. unfold grown. cbn. rewrite !app_nil_r. reflexivity. Qed.

Lemma grown_grown st n1 d1 n2 d2 :
  grown (grown st n1 d1) n2 d2 = grown st (n1 ++ n2) (d1 ++ d2).
Proof. unfold grown. cbn. rewrite !app_assoc. reflexivity. Qed.

Lemma loader_loop_ok listing : forall st st',
  loader_loop' listing st = (st', Ok ()) ->
  exists docs, Forall2 processed' listing docs
               /\ st' = grown st listing.*1 docs.
Proof.
  induction listing as [|[file e] rest IH]; intros st st' H.
  - cbn in H. inversion H; subst. exists []. split; [constructor|].
    symmetry. apply grown_nil.
  - cbn [loader_loop] in H.
    destruct (load_one' st file e) as [st1 [[]|x]] eqn:E; [|discriminate].
    apply load_one_ok in E as (d & Hd & ->).
    apply IH in H as (docs & Hdocs & ->).
    exists (d :: docs). split; [constructor; assumption|].
    rewrite grown_grown. reflexivity.
Qed.

Lemma loader_loop_processed listing : forall st docs,
  Forall2 processed' listing docs ->
  loader_loop' listing st = (grown st listing.*1 docs, Ok ()).
Proof.
  induction listing as [|[file e] rest IH]; intros st docs H.
  - inversion H; subst. cbn. rewrite grown_nil. reflexivity.
  - inversion H as [|? d ? docs' Hd Hrest]; subst.
    cbn [loader_loop]. rewrite (load_one_processed _ _ _ _ Hd).
    rewrite (IH _ _ Hrest), grown_grown. reflexivity.
Qed.

Lemma loader_loop_app pre post st :
  loader_loop' (pre ++ post) st
  = match loader_loop' pre st with
    | (st', Ok _) => loader_loop' post st'
    | (st', Raise x) => (st', Raise x)
    end.
Proof.
  revert st. induction pre as [|[file e] pre IH]; intros st; [reflexivity|].
  cbn [app loader_loop].
  destruct (load_one' st file e) as [st1 [[]|x]]; [apply IH | reflexivity].
Qed.

(** The writer writes the documents under the names at the same index,
    as far as the files can be opened. *)
Lemma writer_loop_closed st : forall n i out,
  (i + n)%nat = length (list_documents st) ->
  writer_loop writable (seq i n) st out
  = (foldl write out
       (zip (writable_prefix writable (drop i (file_names st)))
            (drop i (list_documents st))),
     writer_outcome writable (drop i (file_names st))
       (drop i (list_documents st))).
Proof.
  induction n as [|n IH]; intros i out Hi.
  - rewrite (drop_ge (list_documents st)) by lia.
    rewrite zip_nil_r, writer_outcome_nil. reflexivity.
  - cbn [seq writer_loop].
    destruct (lookup_lt_is_Some_2 (list_documents st) i) as [doc Hdoc]; [lia|].
    rewrite (drop_S _ _ _ Hdoc).
    destruct (file_names st !! i) as [name|] eqn:Hname.
    + rewrite (drop_S _ _ _ Hname). cbn [writable_prefix].
      destruct (writable name) eqn:Hw.
      * rewrite Hdoc, IH by lia.
        rewrite (writer_outcome_step _ _ _ _ _ Hw). reflexivity.
      * rewrite (writer_outcome_stop _ _ _ _ _ Hw). reflexivity.
    + rewrite (drop_ge (file_names st)) by (apply lookup_ge_None_1, Hname).
      reflexivity.
Qed.

Lemma writer_closed st out :
  writer writable st out
  = (foldl write out
       (zip (writable_prefix writable (file_names st)) (list_documents st)),
     writer_outcome writable (file_names st) (list_documents st)).
Proof.
  unfold writer. rewrite writer_loop_closed by lia. reflexivity.
Qed.

Lemma writer_aligned st out :
  (length (list_documents st) <= length (file_names st))%nat ->
  Forall (fun name => writable name = true)
    (take (length (list_documents st)) (file_names st)) ->
  writer writable st out
  = (foldl write out (zip (file_names st) (list_documents st)), Ok ()).
Proof.
  intros Hlen Hw. rewrite writer_closed.
  rewrite <- (zip_take_names (writable_prefix writable (file_names st))
                (list_documents st) (length (list_documents st)))
    by reflexivity.
  rewrite <- writable_prefix_take, (writable_prefix_all _ _ Hw).
  rewrite zip_take_names by reflexivity. f_equal.
  apply writer_outcome_ok.
  apply (writable_prefix_reaches _ _ _ Hlen Hw).
Qed.

Lemma writer_ok st out out' :
  writer writable st out = (out', Ok ()) ->
  (length (list_documents st) <= length (file_names st))%nat
  /\ Forall (fun name => writable name = true)
       (take (length (list_documents st)) (file_names st))
  /\ out' = foldl write out (zip (file_names st) (list_documents st)).
Proof.
  rewrite writer_closed. intros H. inversion H as [[Hout Hr]].
  apply writer_outcome_ok_inv in Hr.
  pose proof (writable_prefix_length writable (file_names st)) as Hle.
  split; [lia|].
  assert (Hw : Forall (fun name => writable name = true)
                 (take (length (list_documents st)) (file_names st))).
  { apply (writable_prefix_covers writable). rewrite writable_prefix_take.
    rewrite !length_take. lia. }
  split; [exact Hw|].
  rewrite <- (zip_take_names (writable_prefix writable (file_names st))
                (list_documents st) (length (list_documents st)))
    by reflexivity.
  rewrite <- writable_prefix_take, (writable_prefix_all _ _ Hw).
  rewrite zip_take_names by reflexivity. reflexivity.
Qed.

Lemma notebook_ok listing out out' :
  notebook' listing out = (out', Ok ()) ->
  exists docs, Forall2 processed' listing docs
               /\ Forall (fun name => writable name = true) listing.*1
               /\ out' = foldl write out (zip listing.*1 docs).
Proof.
  unfold notebook, loader.
  destruct (loader_loop' listing fresh) as [st [[]|x]] eqn:E; [|discriminate].
  apply loader_loop_ok in E as (docs & Hdocs & ->).
  pose proof (Forall2_length _ _ _ Hdocs) as Hlen.
  intros H. apply writer_ok in H as (_ & Hw & ->).
  cbn [grown fresh list_documents file_names app] in *.
  exists docs. split; [exact Hdocs|]. split; [|reflexivity].
  rewrite firstn_all2 in Hw by (rewrite length_fmap; lia). exact Hw.
Qed.

Lemma notebook_processed listing docs out :
  Forall2 processed' listing docs ->
  Forall (fun name => writable name = true) listing.*1 ->
  notebook' listing out = (foldl write out (zip listing.*1 docs), Ok ()).
Proof.
  intros Hdocs Hw. unfold notebook, loader.
  rewrite (loader_loop_processed _ _ _ Hdocs).
  pose proof (Forall2_length _ _ _ Hdocs) as Hlen.
  rewrite writer_aligned; cbn [grown fresh list_documents file_names app].
  - reflexivity.
  - rewrite length_fmap. lia.
  - apply Forall_take. exact Hw.
Qed.
End NotebookFacts.

(** ** The claims about the loader, the lemmatizer and the writer *)

Section NotebookClaims.
Variables is_word is_space is_digit : char -> bool.
Variable stopwords : list str.
Variable lower : str -> str.
Variable en_core_web_sm : str -> Doc.
Variable writable : string -> bool.

Local Abbreviation cleaned := (clean is_word is_space is_digit stopwords).
Local Abbreviation lemmaspacy' := (lemmaspacy en_core_web_sm).
Local Abbreviation extract_nouns' := (extract_nouns en_core_web_sm).
Local Abbreviation process' :=
  (process is_word is_space is_digit stopwords lower en_core_web_sm).
Local Abbreviation load_one' :=
  (load_one is_word is_space is_digit stopwords lower en_core_web_sm).
Local Abbreviation loader_loop' :=
  (loader_loop is_word is_space is_digit stopwords lower en_core_web_sm).
Local Abbreviation loader' :=
  (loader is_word is_space is_digit stopwords lower en_core_web_sm).
Local Abbreviation processed' :=
  (processed is_word is_space is_digit stopwords lower en_core_web_sm).
Local Abbreviation notebook' :=
  (notebook is_word is_space is_digit stopwords lower en_core_web_sm
     writable).


Lemma lemmaspacy_too_long s :
  60000000 < len s -> lemmaspacy' s = Raise ValueError.
Proof.
  intros H. unfold lemmaspacy, call, set_max_length. cbn [max_length].
  apply N.ltb_lt in H. rewrite H. reflexivity.
Qed.

(** C6.  When the text handed to the lemmatizer is longer than the
    configured maximum (60,000,000 characters), [lemmaspacy] raises
    instead of truncating; the exception ends the processing of that
    document: no text is appended for it, nothing is retried, and the
    run of the notebook stops with the exception. *)
Theorem lemmatizer_overflow_is_fatal raw :
  60000000 < len (clean is_word is_space is_digit stopwords (lower raw)) ->
  lemmaspacy en_core_web_sm
    (clean is_word is_space is_digit stopwords (lower raw))
  = Raise ValueError
  /\ process is_word is_space is_digit stopwords lower en_core_web_sm raw
     = Raise ValueError
  /\ (forall st file,
        load_one is_word is_space is_digit stopwords lower en_core_web_sm
          st file (TextFile raw)
        = ({| list_documents := list_documents st;
              file_names := file_names st ++ [file] |}, Raise ValueError))
  /\ (forall pre docs file post out,
        Forall2 (processed is_word is_space is_digit stopwords lower
                   en_core_web_sm) pre docs ->
        notebook is_word is_space is_digit stopwords lower en_core_web_sm
          writable (pre ++ (file, TextFile raw) :: post) out
        = (out, Raise ValueError)).
Proof.
  intros H. pose proof (lemmaspacy_too_long _ H) as Hl.
  assert (Hp : process' raw = Raise ValueError)
    by (unfold process; cbv zeta; rewrite Hl; reflexivity).
  assert (H1 : forall st file,
            load_one' st file (TextFile raw)
            = ({| list_documents := list_documents st;
                  file_names := file_names st ++ [file] |}, Raise ValueError))
    by (intros; unfold load_one; rewrite Hp; reflexivity).
  repeat split; try assumption.
  intros pre docs file post out Hpre. unfold notebook, loader.
  rewrite loader_loop_app, (loader_loop_processed _ _ _ _ _ _ _ _ _ Hpre).
  cbn [loader_loop]. rewrite H1. reflexivity.
Qed.

(** C9.  After every iteration of the loader loop the two lists have the
    same length, and the writer writes, for every index, the processed
    text of the file read at that index under the name of that very
    file: the files it writes are the pairs of a name and the document
    at the same index, up to the first file that cannot be opened for
    writing, where it stops with [OSError]; it never stops with
    [IndexError], and it writes every pair when every file can be
    opened. *)
Theorem loader_writer_aligned pre post st :
  loader is_word is_space is_digit stopwords lower en_core_web_sm
    (pre ++ post) = (st, Ok ()) ->
  (exists mid,
     loader is_word is_space is_digit stopwords lower en_core_web_sm pre
     = (mid, Ok ())
     /\ length (file_names mid) = length (list_documents mid))
  /\ exists docs,
       Forall2 (processed is_word is_space is_digit stopwords lower
                  en_core_web_sm) (pre ++ post) docs
       /\ file_names st = (pre ++ post).*1
       /\ list_documents st = docs
       /\ forall out,
            writer writable st out
            = (foldl write out
                 (zip (writable_prefix writable (pre ++ post).*1) docs),
               if forallb writable (pre ++ post).*1 then Ok ()
               else Raise OSError)
            /\ (Forall (fun name => writable name = true) (pre ++ post).*1 ->
                writer writable st out
                = (foldl write out (zip (pre ++ post).*1 docs), Ok ())).
Proof.
  unfold loader. intros H. split.
  - rewrite loader_loop_app in H.
    destruct (loader_loop' pre fresh) as [mid [[]|x]] eqn:E; [|discriminate].
    exists mid. split; [reflexivity|].
    apply loader_loop_ok in E as (docs & Hdocs & ->). cbn.
    rewrite length_fmap. apply Forall2_length in Hdocs. exact Hdocs.
  - apply loader_loop_ok in H as (docs & Hdocs & ->).
    pose proof (Forall2_length _ _ _ Hdocs) as Hlen.
    exists docs. repeat split; try assumption.
    + rewrite writer_closed.
      cbn [grown fresh list_documents file_names app]. f_equal.
      apply writer_outcome_aligned. rewrite length_fmap. exact Hlen.
    + intros Hw. apply writer_aligned;
        cbn [grown fresh list_documents file_names app].
      * rewrite length_fmap. lia.
      * apply Forall_take. exact Hw.
Qed.

(** C10.  The loader filters nothing: it completes exactly when every
    entry of the listing, whatever its name, is a text file that the
    pipeline accepts, and then every name is in [file_names] and every
    text has gone through the pipeline. *)
Theorem loader_takes_every_entry listing st :
  loader is_word is_space is_digit stopwords lower en_core_web_sm listing
  = (st, Ok ())
  <-> file_names st = listing.*1
      /\ Forall2 (processed is_word is_space is_digit stopwords lower
                    en_core_web_sm) listing (list_documents st).
Proof.
  unfold loader. split.
  - intros H. apply loader_loop_ok in H as (docs & Hdocs & ->).
    split; [reflexivity | exact Hdocs].
  - intros [Hn Hd].
    rewrite (loader_loop_processed _ _ _ _ _ _ _ _ _ Hd).
    destruct st as [docs names]. cbn in Hn |- *. subst names.
    reflexivity.
Qed.

(** What the model does with the empty text: a document without tokens,
    hence without noun chunks. *)
Hypothesis lower_nil : lower [] = [].
Hypothesis model_nil :
  doc_tokens (en_core_web_sm []) = [] /\ noun_chunks (en_core_web_sm []) = [].

Lemma call_nil nlp : call nlp [] = Ok (analyse nlp []).
Proof.
  unfold call. replace (max_length nlp <? len []) with false; [reflexivity|].
  symmetry. apply N.ltb_ge. unfold len. cbn. lia.
Qed.

Lemma lemmaspacy_nil : lemmaspacy' [] = Ok [].
Proof.
  destruct model_nil as [Ht _]. unfold lemmaspacy. cbv zeta.
  rewrite call_nil. cbn. rewrite Ht. reflexivity.
Qed.

Lemma extract_nouns_nil : extract_nouns' [] = Ok [].
Proof.
  destruct model_nil as [_ Hc]. unfold extract_nouns. cbv zeta.
  rewrite call_nil. cbn. rewrite Hc. reflexivity.
Qed.

Lemma process_nil : process' [] = Ok [].
Proof.
  unfold process. cbv zeta. rewrite lower_nil, clean_nil, lemmaspacy_nil.
  apply extract_nouns_nil.
Qed.

(** C7.  The empty string goes through every stage without an exception
    and comes out empty, and for an empty input file the writer creates
    an output file that is empty, when the file can be opened for
    writing (the run stops with [OSError] when it cannot). *)
Theorem empty_file_gives_empty_file :
  clean is_word is_space is_digit stopwords [] = []
  /\ lemmaspacy en_core_web_sm [] = Ok []
  /\ extract_nouns en_core_web_sm [] = Ok []
  /\ process is_word is_space is_digit stopwords lower en_core_web_sm []
     = Ok []
  /\ (forall file out,
        notebook is_word is_space is_digit stopwords lower en_core_web_sm
          writable [(file, TextFile [])] out
        = if writable file then (<[file := []]> out, Ok ())
          else (out, Raise OSError))
  /\ (forall listing out out' file,
        notebook is_word is_space is_digit stopwords lower en_core_web_sm
          writable listing out = (out', Ok ()) ->
        NoDup listing.*1 ->
        (file, TextFile []) ∈ listing ->
        out' !! file = Some []).
Proof.
  split; [reflexivity|].
  split; [apply lemmaspacy_nil|].
  split; [apply extract_nouns_nil|].
  split; [apply process_nil|].
  split.
  - intros file out. unfold notebook, loader. cbn [loader_loop load_one].
    rewrite process_nil. unfold writer.
    cbn [fresh list_documents file_names app length seq writer_loop lookup
         list_lookup].
    destruct (writable file); reflexivity.
  - intros listing out out' file H Hnd Hin.
    apply notebook_ok in H as (docs & Hdocs & _ & ->).
    pose proof (Forall2_length _ _ _ Hdocs) as Hlen.
    apply list_elem_of_lookup_1 in Hin as [i Hi].
    destruct (Forall2_lookup_l _ _ _ _ _ Hdocs Hi) as (d & Hd & (raw & Hraw & Hp)).
    cbn in Hraw. inversion Hraw; subst raw. rewrite process_nil in Hp.
    inversion Hp; subst d.
    apply lookup_writes.
    + rewrite fst_zip by (rewrite length_fmap; lia). exact Hnd.
    + apply (list_elem_of_lookup_2 _ i).
      apply lookup_zip_with_Some. exists file, []. split; [reflexivity|].
      split; [|exact Hd]. rewrite list_lookup_fmap, Hi. reflexivity.
Qed.
End NotebookClaims.

(** ** The notebook on a sample directory *)

Lemma toy_loader_sample : toy_loader sample_listing = (sample_cells, Ok ()).
Proof. vm_compute. reflexivity. Qed.

Lemma toy_notebook_sample :
  toy_notebook sample_listing ∅ = (sample_output, Ok ()).
Proof. vm_compute. reflexivity. Qed.

Lemma toy_loader_broken :
  toy_loader broken_listing = (broken_cells, Raise UnicodeDecodeError).
Proof. vm_compute. reflexivity. Qed.



Lemma loader_writer_aligned_witness :
  (exists mid, toy_loader (take 1 sample_listing) = (mid, Ok ())
               /\ length (file_names mid) = length (list_documents mid))
  /\ exists docs,
       Forall2 (processed latin1_word latin1_space latin1_digit nltk_english
                  toy_lower toy_model)
               (take 1 sample_listing ++ drop 1 sample_listing) docs
       /\ file_names sample_cells
          = (take 1 sample_listing ++ drop 1 sample_listing).*1
       /\ list_documents sample_cells = docs
       /\ forall out,
            writer writable_dir sample_cells out
            = (foldl write out
                 (zip (writable_prefix writable_dir
                         (take 1 sample_listing ++ drop 1 sample_listing).*1)
                    docs),
               if forallb writable_dir
                    (take 1 sample_listing ++ drop 1 sample_listing).*1
               then Ok () else Raise OSError)
            /\ (Forall (fun name => writable_dir name = true)
                   (take 1 sample_listing ++ drop 1 sample_listing).*1 ->
                writer writable_dir sample_cells out
                = (foldl write out
                     (zip (take 1 sample_listing ++ drop 1 sample_listing).*1
                        docs), Ok ())).
Proof.
  apply (loader_writer_aligned latin1_word latin1_space latin1_digit
           nltk_english toy_lower toy_model writable_dir
           (take 1 sample_listing) (drop 1 sample_listing) sample_cells).
  exact toy_loader_sample.
Defined.

Lemma empty_file_gives_empty_file_witness :
  clean_latin1 [] = []
  /\ lemmaspacy toy_model [] = Ok []
  /\ extract_nouns toy_model [] = Ok []
  /\ process latin1_word latin1_space latin1_digit nltk_english toy_lower
       toy_model [] = Ok []
  /\ (forall file out,
        toy_notebook [(file, TextFile [])] out
        = if writable_dir file then (<[file := []]> out, Ok ())
          else (out, Raise OSError))
  /\ (forall listing out out' file,
        toy_notebook listing out = (out', Ok ()) ->
        NoDup listing.*1 ->
        (file, TextFile []) ∈ listing ->
        out' !! file = Some []).
Proof.
  apply (empty_file_gives_empty_file latin1_word latin1_space latin1_digit
           nltk_english toy_lower toy_model writable_dir).
  - reflexivity.
  - split; reflexivity.
Defined.

(** *** A text that is too long for the lemmatizer *)

Lemma map_replicate {A B} (f : A -> B) n x :
  map f (replicate n x) = replicate n (f x).
Proof. induction n as [|n IH]; cbn; [|rewrite IH]; reflexivity. Qed.

Lemma toy_lower_long_text : toy_lower long_text = long_text.
Proof. unfold toy_lower, long_text. apply map_replicate. Qed.

Lemma nltk_english_lengths w :
  In w nltk_english -> (length w <= 10)%nat.
Proof.
  assert (H : forallb (fun w => (length w <=? 10)%nat) nltk_english = true)
    by (vm_compute; reflexivity).
  rewrite forallb_forall in H. intros Hw. apply Nat.leb_le, H, Hw.
Qed.

Lemma length_long_text : length long_text = N.to_nat 60000001.
Proof. unfold long_text. apply length_replicate. Qed.

Lemma long_text_letters : all ascii_letter long_text.
Proof. unfold long_text. apply Forall_replicate. reflexivity. Qed.

Lemma long_text_long : (3 <= length long_text)%nat.
Proof.
  rewrite length_long_text. apply Nat2Z.inj_le. rewrite N_nat_Z.
  discriminate.
Qed.

Lemma long_text_no_stopword : ~ In long_text nltk_english.
Proof.
  intros H. apply nltk_english_lengths in H.
  rewrite length_long_text in H.
  apply Nat2Z.inj_le in H. rewrite N_nat_Z in H. exact (H eq_refl).
Qed.

Lemma clean_long_text :
  clean latin1_word latin1_space latin1_digit nltk_english long_text
  = long_text.
Proof.
  exact (clean_word latin1_word latin1_space latin1_digit nltk_english
           latin1_laws nltk_english_ok long_text long_text_letters
           long_text_long long_text_no_stopword).
Qed.

Lemma len_long_text : len long_text = 60000001.
Proof. unfold len. rewrite length_long_text. apply N2Nat.id. Qed.

Lemma long_text_too_long :
  60000000
  < len (clean latin1_word latin1_space latin1_digit nltk_english
           (toy_lower long_text)).
Proof.
  rewrite toy_lower_long_text, clean_long_text, len_long_text. reflexivity.
Qed.

Lemma lemmatizer_overflow_is_fatal_witness :
  lemmaspacy toy_model
    (clean latin1_word latin1_space latin1_digit nltk_english
       (toy_lower long_text)) = Raise ValueError
  /\ process latin1_word latin1_space latin1_digit nltk_english toy_lower
       toy_model long_text = Raise ValueError
  /\ (forall st file,
        load_one latin1_word latin1_space latin1_digit nltk_english toy_lower
          toy_model st file (TextFile long_text)
        = ({| list_documents := list_documents st;
              file_names := file_names st ++ [file] |}, Raise ValueError))
  /\ (forall pre docs file post out,
        Forall2 (processed latin1_word latin1_space latin1_digit nltk_english
                   toy_lower toy_model) pre docs ->
        notebook latin1_word latin1_space latin1_digit nltk_english toy_lower
          toy_model writable_dir (pre ++ (file, TextFile long_text) :: post)
          out
        = (out, Raise ValueError)).
Proof.
  exact (lemmatizer_overflow_is_fatal latin1_word latin1_space latin1_digit
           nltk_english toy_lower toy_model writable_dir long_text
           long_text_too_long).
Defined.

Lemma loader_takes_every_entry_witness :
  file_names sample_cells = sample_listing.*1
  /\ Forall2 (processed latin1_word latin1_space latin1_digit nltk_english
                toy_lower toy_model)
             sample_listing (list_documents sample_cells).
Proof.
  apply (loader_takes_every_entry latin1_word latin1_space latin1_digit
           nltk_english toy_lower toy_model sample_listing sample_cells).
  exact toy_loader_sample.
Defined.

(** * The cleaner without patterns *)

(** ** Runs through a filter and a character map *)

Section RunsThrough.
Variables p g : char -> bool.
Variable f : char -> char.
Variable x : char.
Hypothesis g_x : g x = true.
Hypothesis f_x : f x = x.
Hypothesis p_x : p x = false.

Lemma take_while_through s :
  take_while p (map f (List.filter g (squeeze (is_char x) [x] false s)))
  = take_while p (map f (List.filter g s)).
Proof.
  induction s as [|c s IH]; [reflexivity|].
  cbn [squeeze]. unfold is_char at 1.
  destruct (N.eqb_spec c x) as [->|Hc].
  - cbn [app List.filter map]. rewrite g_x. cbn [map take_while].
    rewrite f_x, p_x. reflexivity.
  - cbn [List.filter]. destruct (g c); [|exact IH].
    cbn [map take_while]. destruct (p (f c)); [|reflexivity].
    f_equal. exact IH.
Qed.

Lemma runs_through s : forall b bq, b && bq = false ->
  runs p b (map f (List.filter g (squeeze (is_char x) [x] bq s)))
  = runs p b (map f (List.filter g s)).
Proof.
  induction s as [|c s IH]; intros b bq Hb; [reflexivity|].
  cbn [squeeze]. unfold is_char at 1.
  destruct (N.eqb_spec c x) as [->|Hc].
  - cbn [List.filter]. rewrite g_x. cbn [map runs]. rewrite f_x, p_x.
    destruct bq.
    + destruct b; [discriminate|]. apply IH. reflexivity.
    + cbn [app List.filter]. rewrite g_x. cbn [map runs].
      rewrite f_x, p_x. apply IH. reflexivity.
  - cbn [List.filter]. destruct (g c).
    + cbn [map runs take_while]. destruct (p (f c)).
      * destruct b.
        -- apply IH. reflexivity.
        -- rewrite take_while_through. f_equal. apply IH. reflexivity.
      * apply IH. reflexivity.
    + apply IH. destruct b; reflexivity.
Qed.
End RunsThrough.

Lemma runs_none p s b :
  Forall (fun c => p c = false) s -> runs p b s = [].
Proof.
  intros H. revert b. induction H as [|c s Hc _ IH]; intros b; [reflexivity|].
  cbn [runs]. rewrite Hc. apply IH.
Qed.

Lemma take_while_app_run p a b :
  take_while p (a ++ b)
  = take_while p a ++ (if bool_decide (all p a) then take_while p b else []).
Proof.
  induction a as [|d a IH]; cbn [app take_while].
  - rewrite bool_decide_eq_true_2; [reflexivity | constructor].
  - destruct (p d) eqn:E.
    + cbn [app]. rewrite IH. f_equal. f_equal.
      destruct (bool_decide (all p a)) eqn:Ea.
      * apply bool_decide_eq_true in Ea. rewrite bool_decide_eq_true_2;
          [reflexivity | constructor; assumption].
      * apply bool_decide_eq_false in Ea. rewrite bool_decide_eq_false_2;
          [reflexivity|]. intros H. inversion H. contradiction.
    + rewrite bool_decide_eq_false_2; [reflexivity|].
      intros H. inversion H. congruence.
Qed.

(** The runs of two texts with a separator between them. *)
Lemma runs_app_sep p a c b : p c = false -> forall bi,
  runs p bi (a ++ c :: b) = runs p bi a ++ runs p false b.
Proof.
  intros Hc. induction a as [|d a IH]; intros bi; cbn [app runs].
  - rewrite Hc. reflexivity.
  - destruct (p d) eqn:E; [|apply IH]. destruct bi; [apply IH|].
    rewrite IH. cbn [app]. f_equal.
    change (d :: a ++ c :: b) with ((d :: a) ++ c :: b).
    rewrite take_while_app_run.
    destruct (bool_decide (all p (d :: a))) eqn:Ea.
    + cbn [take_while]. rewrite Hc. rewrite app_nil_r. reflexivity.
    + rewrite app_nil_r. reflexivity.
Qed.

(** ** The two digit steps delete the digits and nothing else *)

Section DigitSteps.
Variables is_word is_space is_digit : char -> bool.
Hypothesis U : unicode_laws is_word is_space is_digit.

Lemma drop_digits_numbers s :
  (forall m, m <> Dropping ->
     drop_digits is_digit
       (edit_words is_word is_space false (numeric is_digit) m s)
     = drop_digits is_digit s)
  /\ (numeric is_digit (take_while is_word s) = true ->
      drop_digits is_digit
        (edit_words is_word is_space false (numeric is_digit) Dropping s)
      = drop_digits is_digit s).
Proof.
  unfold drop_digits.
  induction s as [|c s [IH1 IH2]]; [split; reflexivity|].
  cbn [edit_words take_while]. destruct (is_word c) eqn:Ew.
  - split.
    + intros m Hm. cbn [numeric forallb].
      assert (Hout :
        List.filter (fun c => negb (is_digit c))
          (if is_digit c && forallb is_digit (take_while is_word s)
           then edit_words is_word is_space false (numeric is_digit)
                  Dropping s
           else c :: edit_words is_word is_space false (numeric is_digit)
                       Keeping s)
        = List.filter (fun c => negb (is_digit c)) (c :: s)).
      { destruct (is_digit c) eqn:Ed; cbn [andb List.filter];
          rewrite ?Ed; cbn [negb].
        - destruct (forallb is_digit (take_while is_word s)) eqn:En.
          + apply IH2. exact En.
          + cbn [List.filter]. rewrite Ed. cbn [negb].
            apply IH1. discriminate.
        - f_equal. apply IH1. discriminate. }
      destruct m; [exact Hout| |contradiction|exact Hout].
      cbn [List.filter]. destruct (negb (is_digit c));
        [f_equal|]; apply IH1; discriminate.
    + cbn [numeric forallb]. intros Hn.
      apply andb_true_iff in Hn as [Hd Hn].
      cbn [List.filter]. rewrite Hd. cbn [negb]. apply IH2. exact Hn.
  - split.
    + intros m Hm. cbn [andb].
      assert (Hout :
        List.filter (fun c => negb (is_digit c))
          (c :: edit_words is_word is_space false (numeric is_digit)
                  Outside s)
        = List.filter (fun c => negb (is_digit c)) (c :: s)).
      { cbn [List.filter]. destruct (negb (is_digit c));
          [f_equal|]; apply IH1; discriminate. }
      destruct m; first [exact Hout | contradiction].
    + intros _. cbn [andb List.filter]. destruct (negb (is_digit c));
        [f_equal|]; apply IH1; discriminate.
Qed.

Lemma digit_rules s :
  rule4 is_digit (rule3 is_word is_space is_digit s)
  = drop_digits is_digit s.
Proof.
  unfold rule4, rule3, remove_tokens.
  apply (proj1 (drop_digits_numbers s)). discriminate.
Qed.

(** The words that the last steps judge are the letter runs. *)
Lemma front_letter_words s :
  tokens is_word (clean_front is_word is_space is_digit s)
  = letter_words is_word is_digit s.
Proof.
  unfold tokens.
  rewrite (runs_ext is_word ascii_letter).
  2:{ eapply List.Forall_impl; [|apply (clean_front_plain _ _ _ U)].
      intros c Hc. apply (plain_word _ _ _ U). exact Hc. }
  rewrite (front_rules _ _ _ U), digit_rules, (rules_two _ _ _ U).
  unfold rule6, rule5.
  rewrite runs_squeeze; [| reflexivity | | reflexivity].
  2:{ intros c Hc. destruct (ascii_letter c) eqn:E; [|reflexivity].
      rewrite (letter_alnum _ E) in Hc. discriminate. }
  rewrite <- (squeeze_map (fun c => negb (is_word c)) SPACE).
  2:{ rewrite (blank_not_word _ _ _ U). reflexivity. }
  unfold letter_words, replace_char, drop_digits, blank_non_word.
  replace (map (fun c => if negb (is_word c) then SPACE else c) s)
    with (map (fun c => if is_word c then c else SPACE) s).
  2:{ apply map_ext. intros c. destruct (is_word c); reflexivity. }
  apply (runs_through ascii_letter (fun c => negb (is_digit c))
           (fun c => if c =? E_ACUTE then LETTER_E else c) SPACE).
  - rewrite (not_word_not_digit _ _ _ U); [reflexivity|].
    apply (blank_not_word _ _ _ U).
  - reflexivity.
  - reflexivity.
  - reflexivity.
Qed.
End DigitSteps.

(** ** Lengths *)

Lemma join_filter_length (f : str -> bool) (x : char) ws :
  (length (join [x] (List.filter f ws)) <= length (join [x] ws))%nat.
Proof.
  induction ws as [|w ws IH]; [reflexivity|].
  cbn [List.filter]. rewrite (join_cons _ w ws).
  assert (Hle : (length (join [x] ws)
                 <= length (match ws with
                            | [] => []
                            | _ :: _ => [x] ++ join [x] ws
                            end))%nat).
  { destruct ws; [reflexivity|]. rewrite length_app. cbn [length]. lia. }
  destruct (f w).
  - rewrite join_cons, !length_app.
    destruct (List.filter f ws) as [|v vs] eqn:E; [cbn [length]; lia|].
    destruct ws as [|w' ws']; [discriminate|].
    rewrite !length_app. cbn [length]. lia.
  - rewrite length_app. lia.
Qed.

Lemma join_runs_length p (x : char) s :
  (length (join [x] (runs p false s)) <= length s)%nat
  /\ (length (take_while p s)
      + match runs p true s with
        | [] => 0
        | _ :: _ => 1 + length (join [x] (runs p true s))
        end <= length s)%nat.
Proof.
  induction s as [|c s [IH1 IH2]]; [split; reflexivity|].
  cbn [runs take_while]. destruct (p c).
  - split.
    + rewrite join_cons, length_app. cbn [length].
      destruct (runs p true s) as [|w ws].
      * cbn [length]. lia.
      * rewrite length_app. cbn [length] in *. lia.
    + cbn [length]. lia.
  - split.
    + cbn [length]. lia.
    + cbn [length]. destruct (runs p false s); cbn [length] in *; lia.
Qed.

Lemma kept_spec stopwords w :
  kept stopwords w = true <-> (3 <= length w)%nat /\ ~ In w stopwords.
Proof.
  unfold kept, short, is_stopword. rewrite andb_true_iff, !negb_true_iff.
  rewrite <- (mem_In w stopwords).
  split.
  - intros [H1 H2]. split.
    + apply Nat.leb_gt in H1. lia.
    + rewrite H2. discriminate.
  - intros [H1 H2]. split.
    + apply Nat.leb_gt. lia.
    + destruct (mem w stopwords); [contradiction H2; reflexivity|reflexivity].
Qed.

(** ** The letter words of a text *)

Section LetterWords.
Variables is_word is_space is_digit : char -> bool.
Hypothesis U : unicode_laws is_word is_space is_digit.

Lemma blank_keeps_digits c :
  is_digit (if is_word c then c else SPACE) = is_digit c.
Proof.
  destruct (is_word c) eqn:E; [reflexivity|].
  rewrite (not_word_not_digit _ _ _ U _ E).
  apply (not_word_not_digit _ _ _ U), (blank_not_word _ _ _ U).
Qed.

Lemma letter_words_app a c b : is_word c = false ->
  letter_words is_word is_digit (a ++ c :: b)
  = letter_words is_word is_digit a ++ letter_words is_word is_digit b.
Proof.
  intros Hc. unfold letter_words, replace_char, drop_digits, blank_non_word.
  rewrite map_app, List.filter_app, map_app. cbn [map List.filter].
  rewrite Hc, (not_word_not_digit _ _ _ U SPACE (blank_not_word _ _ _ U)).
  cbn [negb map]. apply runs_app_sep. reflexivity.
Qed.

Lemma letter_words_digits s :
  letter_words is_word is_digit (drop_digits is_digit s)
  = letter_words is_word is_digit s.
Proof.
  unfold letter_words. f_equal. f_equal.
  unfold drop_digits, blank_non_word.
  induction s as [|c s IH]; [reflexivity|].
  cbn [List.filter map]. rewrite blank_keeps_digits.
  destruct (is_digit c) eqn:E; cbn [negb]; [exact IH|].
  cbn [map List.filter]. rewrite blank_keeps_digits, E. cbn [negb].
  f_equal. exact IH.
Qed.

Lemma letter_words_none s :
  Forall (fun c => ascii_letter c = false /\ c <> E_ACUTE) s ->
  letter_words is_word is_digit s = [].
Proof.
  intros H. apply runs_none.
  unfold replace_char, drop_digits, blank_non_word.
  induction H as [|c s [Hl He] _ IH]; [constructor|].
  cbn [map List.filter].
  destruct (negb (is_digit (if is_word c then c else SPACE))); [|exact IH].
  cbn [map]. constructor; [|exact IH].
  destruct (is_word c).
  - apply N.eqb_neq in He. rewrite He. exact Hl.
  - reflexivity.
Qed.

Lemma letter_words_length s :
  (length (join [SPACE] (letter_words is_word is_digit s)) <= length s)%nat.
Proof.
  unfold letter_words.
  etransitivity; [apply (proj1 (join_runs_length _ _ _))|].
  unfold replace_char, drop_digits, blank_non_word.
  rewrite length_map.
  etransitivity; [apply List.filter_length_le|].
  rewrite length_map. reflexivity.
Qed.

Variable stopwords : list str.
Hypothesis stopwords_fine : stopwords_ok stopwords = true.

Lemma kept_letter_words s :
  Forall (fun w => w <> [] /\ all ascii_letter w /\ kept stopwords w = true)
    (List.filter (kept stopwords) (letter_words is_word is_digit s)).
Proof.
  rewrite <- (front_letter_words _ is_space _ U).
  apply (kept_words _ _ _ _ U).
Qed.

Lemma split_joined ws :
  Forall (fun w => w <> [] /\ all ascii_letter w) ws ->
  split_ws is_space (join [SPACE] ws) = ws.
Proof.
  intros H. unfold split_ws. apply runs_join.
  - rewrite (space_blank _ _ _ U). reflexivity.
  - eapply List.Forall_impl; [|exact H].
    intros w [Hn Hw]. split; [exact Hn|].
    eapply List.Forall_impl; [|exact Hw].
    intros c Hc. cbv beta.
    rewrite (letter_not_space _ _ _ U _ Hc). reflexivity.
Qed.

Lemma split_clean s :
  split_ws is_space (clean is_word is_space is_digit stopwords s)
  = List.filter (kept stopwords) (letter_words is_word is_digit s).
Proof.
  rewrite (clean_closed _ _ _ U _ stopwords_fine), front_letter_words
    by exact U.
  apply split_joined.
  eapply List.Forall_impl; [|apply kept_letter_words].
  intros w (Hn & Hw & _). split; assumption.
Qed.

Lemma clean_length s :
  (length (clean is_word is_space is_digit stopwords s) <= length s)%nat.
Proof.
  rewrite (clean_closed _ _ _ U _ stopwords_fine), front_letter_words
    by exact U.
  etransitivity; [apply join_filter_length|].
  apply letter_words_length.
Qed.
End LetterWords.

(** * More about [clean] *)

Section CleanerMore.
Variables is_word is_space is_digit : char -> bool.
Variable stopwords : list str.
Hypothesis U : unicode_laws is_word is_space is_digit.
Hypothesis stopwords_fine : stopwords_ok stopwords = true.

(** X1.  For every string, whatever its case and its characters, the ten
    assignments of [clean] come to this: turn each non-word character
    into a blank, delete every digit, turn e-acute into e, take the
    maximal runs of ASCII letters, drop the runs of one or two letters
    and the stopwords, and join the rest with single spaces. *)
Theorem clean_letter_words s :
  clean is_word is_space is_digit stopwords s
  = join [SPACE]
      (List.filter (kept stopwords) (letter_words is_word is_digit s)).
Proof.
  rewrite (clean_closed _ _ _ U _ stopwords_fine).
  rewrite (front_letter_words _ _ _ U). reflexivity.
Qed.

(** X2.  Every output of [clean], also for input in upper case, is a
    list of words joined by single spaces, without a blank at either
    end, and each word is made of ASCII letters only, has at least three
    of them, and is no stopword. *)
Theorem clean_normalized s :
  normalized is_space stopwords (clean is_word is_space is_digit stopwords s).
Proof.
  unfold normalized. rewrite (split_clean _ _ _ U _ stopwords_fine).
  split.
  - rewrite (clean_closed _ _ _ U _ stopwords_fine).
    rewrite (front_letter_words _ _ _ U). reflexivity.
  - eapply List.Forall_impl; [|apply (kept_letter_words _ is_space _ U)].
    intros w (_ & Hw & Hk). apply kept_spec in Hk as [Hl Hs].
    split; [exact Hw|]. split; assumption.
Qed.

(** X3.  A text without any ASCII letter and without e-acute (digits,
    punctuation, white space, other scripts) is cleaned to the empty
    string. *)
Theorem clean_without_letters s :
  Forall (fun c => ascii_letter c = false /\ c <> E_ACUTE) s ->
  clean is_word is_space is_digit stopwords s = [].
Proof.
  intros H. rewrite (clean_closed _ _ _ U _ stopwords_fine).
  rewrite (front_letter_words _ _ _ U).
  rewrite (letter_words_none _ _ _ H). reflexivity.
Qed.

(** X4.  The cleaner works word by word: when two texts are put together
    with a non-word character between them, the words of the result are
    the words of the first cleaned text followed by the words of the
    second. *)
Theorem clean_of_two_parts a c b :
  is_word c = false ->
  clean is_word is_space is_digit stopwords (a ++ c :: b)
  = join [SPACE]
      (split_ws is_space (clean is_word is_space is_digit stopwords a)
       ++ split_ws is_space (clean is_word is_space is_digit stopwords b)).
Proof.
  intros Hc. rewrite !(split_clean _ _ _ U _ stopwords_fine).
  rewrite (clean_closed _ _ _ U _ stopwords_fine).
  rewrite (front_letter_words _ _ _ U).
  rewrite (letter_words_app _ _ _ U _ _ _ Hc), List.filter_app.
  reflexivity.
Qed.

(** X5.  The cleaner never makes a text longer: [len(clean(s))] is at
    most [len(s)]. *)
Theorem clean_never_longer s :
  len (clean is_word is_space is_digit stopwords s) <= len s.
Proof.
  pose proof (clean_length _ _ _ U _ stopwords_fine s). unfold len. lia.
Qed.

(** X6.  Digits neither separate words nor make words: deleting every
    digit of the input before cleaning it changes nothing. *)
Theorem clean_ignores_digits s :
  clean is_word is_space is_digit stopwords (drop_digits is_digit s)
  = clean is_word is_space is_digit stopwords s.
Proof.
  rewrite !(clean_closed _ _ _ U _ stopwords_fine).
  rewrite !(front_letter_words _ _ _ U).
  rewrite (letter_words_digits _ _ _ U). reflexivity.
Qed.

(** X7.  Conversely to X2, the cleaner changes no text that is already
    a list of kept words joined by single spaces. *)
Theorem clean_fixes_normalized s :
  normalized is_space stopwords s ->
  clean is_word is_space is_digit stopwords s = s.
Proof.
  intros [Hj Hw]. rewrite Hj at 2. rewrite Hj at 1.
  apply (clean_fixed _ _ _ _ U stopwords_fine).
  eapply List.Forall_impl; [|exact Hw].
  intros w (Hl & Hn & Hs). split; [|split].
  - intros ->. cbn in Hn. lia.
  - exact Hl.
  - apply kept_spec. split; assumption.
Qed.

(** X8.  The third assignment of [clean], which deletes the words made
    of digits, has no effect on what the fourth leaves: the fourth
    deletes every digit anyway. *)
Theorem number_step_redundant s :
  re_sub is_word (re_digits is_digit) []
    (re_sub is_word (re_number is_digit) [] s)
  = re_sub is_word (re_digits is_digit) [] s.
Proof.
  rewrite (sub_number _ is_space _ U).
  unfold re_digits, plus. rewrite !re_sub_plus, !squeeze_delete.
  apply (digit_rules _ is_space _ s).
Qed.
End CleanerMore.

(** ** The same on sample texts *)

Lemma clean_letter_words_witness :
  clean latin1_word latin1_space latin1_digit nltk_english
    (py "Caf" ++ [E_ACUTE] ++ py " No.5: the 2nd ab1cd a_b GROWING")
  = join [SPACE]
      (List.filter (kept nltk_english)
         (letter_words latin1_word latin1_digit
            (py "Caf" ++ [E_ACUTE] ++ py " No.5: the 2nd ab1cd a_b GROWING"))).
Proof.
  apply (clean_letter_words latin1_word latin1_space latin1_digit nltk_english
           latin1_laws nltk_english_ok).
Defined.

Lemma clean_normalized_witness :
  normalized latin1_space nltk_english
    (clean latin1_word latin1_space latin1_digit nltk_english
       (py "The Plants are GROWING rapidly in 2021.")).
Proof.
  apply (clean_normalized latin1_word latin1_space latin1_digit nltk_english
           latin1_laws nltk_english_ok).
Defined.

Lemma clean_without_letters_witness :
  clean latin1_word latin1_space latin1_digit nltk_english
    (py "12.5% (2021) _ " ++ [1087; 1088; 26085]) = [].
Proof.
  apply (clean_without_letters latin1_word latin1_space latin1_digit
           nltk_english latin1_laws nltk_english_ok).
  apply List.Forall_forall. intros c Hc. vm_compute in Hc.
  repeat (destruct Hc as [<- | Hc]; [split; [reflexivity | discriminate]|]).
  contradiction.
Defined.

Lemma clean_of_two_parts_witness :
  clean latin1_word latin1_space latin1_digit nltk_english
    (py "The Plants" ++ 10 :: py "are growing in 2021")
  = join [SPACE]
      (split_ws latin1_space
         (clean latin1_word latin1_space latin1_digit nltk_english
            (py "The Plants"))
       ++ split_ws latin1_space
            (clean latin1_word latin1_space latin1_digit nltk_english
               (py "are growing in 2021"))).
Proof.
  apply (clean_of_two_parts latin1_word latin1_space latin1_digit nltk_english
           latin1_laws nltk_english_ok).
  reflexivity.
Defined.

Lemma clean_never_longer_witness :
  len (clean latin1_word latin1_space latin1_digit nltk_english
         (py "a b c plants"))
  <= len (py "a b c plants").
Proof.
  apply (clean_never_longer latin1_word latin1_space latin1_digit nltk_english
           latin1_laws nltk_english_ok).
Defined.

Lemma clean_ignores_digits_witness :
  clean latin1_word latin1_space latin1_digit nltk_english
    (drop_digits latin1_digit (py "ab1cd 12 x1 the2 plants"))
  = clean latin1_word latin1_space latin1_digit nltk_english
      (py "ab1cd 12 x1 the2 plants").
Proof.
  apply (clean_ignores_digits latin1_word latin1_space latin1_digit
           nltk_english latin1_laws nltk_english_ok).
Defined.

Lemma clean_fixes_normalized_witness :
  clean latin1_word latin1_space latin1_digit nltk_english
    (py "Plants growing RAPIDLY")
  = py "Plants growing RAPIDLY".
Proof.
  apply (clean_fixes_normalized latin1_word latin1_space latin1_digit
           nltk_english latin1_laws nltk_english_ok).
  split; [vm_compute; reflexivity|].
  apply List.Forall_forall. intros w Hw. vm_compute in Hw.
  repeat (destruct Hw as [<- | Hw];
          [split; [repeat constructor
                  |split; [vm_compute; lia
                          |intros H; apply mem_In in H; vm_compute in H;
                           discriminate]]|]).
  contradiction.
Defined.

Lemma number_step_redundant_witness :
  re_sub latin1_word (re_digits latin1_digit) []
    (re_sub latin1_word (re_number latin1_digit) []
       (py "12 ab1cd 2021 x1 3.5"))
  = re_sub latin1_word (re_digits latin1_digit) [] (py "12 ab1cd 2021 x1 3.5").
Proof.
  apply (number_step_redundant latin1_word latin1_space latin1_digit
           latin1_laws).
Defined.

(** * More about the loops *)

(** ** The writer cell on any two lists *)

Lemma zip_fst_subseteq (names : list string) : forall (docs : list str) name,
  name ∈ (zip names docs).*1 -> name ∈ names.
Proof.
  induction names as [|n names IH]; intros [|d docs] name H;
    cbn in H; try (apply elem_of_nil in H; contradiction).
  apply elem_of_cons in H as [-> | H]; [left|right; eapply IH; exact H].
Qed.

(** What is written last is what is found: the files that [l] names do
    not depend on what the directory held before. *)
Lemma lookup_writes_from (l : list (string * str)) :
  forall (m m' : gmap string str) name,
  (name ∉ l.*1 -> m !! name = m' !! name) ->
  foldl write m l !! name = foldl write m' l !! name.
Proof.
  induction l as [|[k v] l IH]; intros m m' name H.
  - apply H. apply not_elem_of_nil.
  - cbn [foldl]. apply IH. intros Hl. unfold write. cbn [fst snd].
    destruct (decide (name = k)) as [->|Hk].
    + rewrite !lookup_insert_eq. reflexivity.
    + rewrite !lookup_insert_ne by congruence. apply H.
      cbn. intros Hin. apply elem_of_cons in Hin as [?|?]; contradiction.
Qed.

Lemma writes_twice (l : list (string * str)) (out : gmap string str) :
  foldl write (foldl write out l) l = foldl write out l.
Proof.
  apply map_eq. intros name. apply lookup_writes_from.
  apply lookup_writes_other.
Qed.

(** ** The loader cell, also when it raises *)

Section LoaderFacts.
Variables is_word is_space is_digit : char -> bool.
Variable stopwords : list str.
Variable lower : str -> str.
Variable en_core_web_sm : str -> Doc.

Local Abbreviation process' :=
  (process is_word is_space is_digit stopwords lower en_core_web_sm).
Local Abbreviation load_one' :=
  (load_one is_word is_space is_digit stopwords lower en_core_web_sm).
Local Abbreviation loader_loop' :=
  (loader_loop is_word is_space is_digit stopwords lower en_core_web_sm).
Local Abbreviation processed' :=
  (processed is_word is_space is_digit stopwords lower en_core_web_sm).

Lemma load_one_raise st file e st' x :
  load_one' st file e = (st', Raise x) ->
  st' = grown st (match e with Unopenable => [] | _ => [file] end) []
  /\ x = match e with
         | Unopenable => OSError
         | Undecodable => UnicodeDecodeError
         | TextFile raw => match process' raw with
                           | Raise y => y
                           | Ok _ => x
                           end
         end.
Proof.
  unfold load_one, grown. destruct e as [raw| |]; cbn [list_documents file_names].
  - destruct (process' raw) as [d|y]; [discriminate|].
    intros H. inversion H; subst. rewrite app_nil_r. split; reflexivity.
  - intros H. inversion H; subst. rewrite app_nil_r. split; reflexivity.
  - intros H. inversion H; subst. destruct st'. cbn.
    rewrite !app_nil_r. split; reflexivity.
Qed.

Lemma loader_loop_outcome listing : forall st0 st r,
  loader_loop' listing st0 = (st, r) ->
  exists docs names,
    st = grown st0 names docs
    /\ Forall2 processed' (take (length docs) listing) docs
    /\ (length docs <= length listing)%nat
    /\ (names = take (length docs) listing.*1
        \/ names = take (S (length docs)) listing.*1
           /\ (length docs < length listing)%nat)
    /\ (r = Ok () <-> length docs = length listing).
Proof.
  induction listing as [|[file e] rest IH]; intros st0 st r H.
  - cbn in H. inversion H; subst. exists [], [].
    rewrite grown_nil. split; [reflexivity|]. split; [constructor|].
    split; [reflexivity|]. split; [left; reflexivity|].
    split; reflexivity.
  - cbn [loader_loop] in H.
    destruct (load_one' st0 file e) as [st1 [[]|x]] eqn:E.
    + apply load_one_ok in E as (d & Hd & ->).
      apply IH in H as (docs & names & -> & Hdocs & Hle & Hnames & Hr).
      exists (d :: docs), (file :: names). rewrite grown_grown.
      cbn [length take fmap list_fmap fst app].
      split; [reflexivity|]. split; [constructor; assumption|].
      split; [lia|]. split.
      * destruct Hnames as [-> | [-> Hlt]]; [left | right; split];
          first [reflexivity | lia].
      * rewrite Hr. lia.
    + inversion H; subst. apply load_one_raise in E as [-> _].
      exists [], (match e with Unopenable => [] | _ => [file] end).
      cbn [length take fmap list_fmap fst].
      split; [reflexivity|]. split; [constructor|]. split; [lia|]. split.
      * destruct e; [right | right | left]; try reflexivity;
          (split; [rewrite take_0; reflexivity | lia]).
      * split; [discriminate | lia].
Qed.

Lemma processed_functional e d d' :
  processed' e d -> processed' e d' -> d = d'.
Proof.
  intros (raw & He & Hp) (raw' & He' & Hp'). congruence.
Qed.

Lemma processed_exists listing : forall docs,
  Forall2 processed' listing docs ->
  Forall (fun e => exists d, processed' e d) listing.
Proof.
  intros docs H. induction H; constructor; eauto.
Qed.

Lemma processed_all listing :
  Forall (fun e => exists d, processed' e d) listing ->
  exists docs, Forall2 processed' listing docs.
Proof.
  intros H. induction H as [|e l [d Hd] _ [docs IH]].
  - exists []. constructor.
  - exists (d :: docs). constructor; assumption.
Qed.

Lemma processed_lookup listing docs name e :
  Forall2 processed' listing docs -> (name, e) ∈ listing ->
  exists d, processed' (name, e) d /\ (name, d) ∈ zip listing.*1 docs.
Proof.
  intros H. induction H as [|[n e'] d l k Hd _ IH]; intros Hin.
  - apply elem_of_nil in Hin. contradiction.
  - apply elem_of_cons in Hin as [Heq | Hin].
    + inversion Heq; subst. exists d. split; [exact Hd | left].
    + destruct (IH Hin) as (d' & Hd' & Hz). exists d'.
      split; [exact Hd' | right; exact Hz].
Qed.
End LoaderFacts.

Section NotebookMore.
Variables is_word is_space is_digit : char -> bool.
Variable stopwords : list str.
Variable lower : str -> str.
Variable en_core_web_sm : str -> Doc.
Variable writable : string -> bool.

(** X9.  Whatever the loader cell did, also when it stopped with an
    exception, the two lists it leaves behind agree: the documents are
    the processed texts of the first entries of the listing, in order;
    [file_names] is a prefix of the listing's names and has as many
    names as there are documents or one more; and the loop ended
    without an exception exactly when there is a document for every
    entry. *)
Theorem loader_outcome listing st r :
  loader is_word is_space is_digit stopwords lower en_core_web_sm listing
  = (st, r) ->
  Forall2 (processed is_word is_space is_digit stopwords lower
             en_core_web_sm)
    (take (length (list_documents st)) listing) (list_documents st)
  /\ file_names st `prefix_of` listing.*1
  /\ (length (list_documents st) <= length (file_names st)
      <= S (length (list_documents st)))%nat
  /\ (r = Ok () <-> length (list_documents st) = length listing).
Proof.
  unfold loader. intros H.
  apply loader_loop_outcome in H
    as (docs & names & -> & Hdocs & Hle & Hnames & Hr).
  cbn [grown fresh list_documents file_names app].
  split; [exact Hdocs|]. split.
  - destruct Hnames as [-> | [-> _]]; apply prefix_take.
  - split; [|exact Hr].
    destruct Hnames as [-> | [-> Hlt]];
      rewrite length_take, length_fmap; lia.
Qed.

(** X10.  The writer cell never raises [IndexError] on the lists that
    the loader cell leaves behind, also after an exception in the
    loader: it writes the documents that were completed, each under the
    name of its own input file, and nothing for the entry that failed;
    it stops with [OSError] at the first of these files that cannot be
    opened for writing, and ends without an exception when there is
    none. *)
Theorem writer_after_loader listing st r out :
  loader is_word is_space is_digit stopwords lower en_core_web_sm listing
  = (st, r) ->
  writer writable st out
  = (foldl write out
       (zip (writable_prefix writable listing.*1) (list_documents st)),
     if (length (list_documents st)
         <=? length (writable_prefix writable listing.*1))%nat
     then Ok () else Raise OSError).
Proof.
  unfold loader. intros H.
  apply loader_loop_outcome in H
    as (docs & names & -> & Hdocs & Hle & Hnames & Hr).
  rewrite writer_closed. cbn [grown fresh list_documents file_names app].
  pose proof (writable_prefix_length writable listing.*1) as Hp.
  rewrite length_fmap in Hp.
  assert (Hk : exists k, names = take k listing.*1
                         /\ (length docs <= k)%nat).
  { destruct Hnames as [-> | [-> _]]; eexists; split; try reflexivity; lia. }
  destruct Hk as (k & -> & Hk).
  rewrite writable_prefix_take, zip_take_names by exact Hk. f_equal.
  unfold writer_outcome.
  rewrite writable_prefix_take, !length_take, length_fmap.
  destruct (Nat.leb_spec (length docs)
              (length (writable_prefix writable listing.*1))) as [H1 | H1].
  - rewrite (proj2 (Nat.leb_le _ _)) by lia. reflexivity.
  - rewrite (proj2 (Nat.leb_gt _ _)) by lia.
    rewrite (proj2 (Nat.ltb_lt _ _)) by lia. reflexivity.
Qed.

(** X11.  When a run completes and no two entries have the same name,
    every output file holds the processed text of the input file of the
    same name, and every other file of the output directory is left as
    it was. *)
Theorem notebook_files listing out out' :
  notebook is_word is_space is_digit stopwords lower en_core_web_sm
    writable listing out = (out', Ok ()) ->
  NoDup listing.*1 ->
  (forall name e, (name, e) ∈ listing ->
     exists d, processed is_word is_space is_digit stopwords lower
                 en_core_web_sm (name, e) d
               /\ out' !! name = Some d)
  /\ (forall name, name ∉ listing.*1 -> out' !! name = out !! name).
Proof.
  intros H Hnd. apply notebook_ok in H as (docs & Hdocs & _ & ->).
  pose proof (Forall2_length _ _ _ Hdocs) as Hlen.
  split.
  - intros name e Hin.
    destruct (processed_lookup _ _ _ _ _ _ _ _ _ _ Hdocs Hin)
      as (d & Hd & Hz).
    exists d. split; [exact Hd|]. apply lookup_writes; [|exact Hz].
    rewrite fst_zip by (rewrite length_fmap; lia). exact Hnd.
  - intros name Hn. apply lookup_writes_other.
    intros Hin. apply Hn. eapply zip_fst_subseteq. exact Hin.
Qed.

(** X12.  The result of a run that completes does not depend on the
    order in which [os.listdir] returns the entries. *)
Theorem listing_order_irrelevant listing listing' out out' :
  notebook is_word is_space is_digit stopwords lower en_core_web_sm
    writable listing out = (out', Ok ()) ->
  listing' ≡ₚ listing ->
  NoDup listing.*1 ->
  notebook is_word is_space is_digit stopwords lower en_core_web_sm
    writable listing' out = (out', Ok ()).
Proof.
  intros H Hperm Hnd. apply notebook_ok in H as (docs & Hdocs & Hw & ->).
  pose proof (processed_exists _ _ _ _ _ _ _ _ Hdocs) as Hall.
  rewrite <- Hperm in Hall. rewrite <- Hperm in Hw.
  apply processed_all in Hall as [docs' Hdocs'].
  rewrite (notebook_processed _ _ _ _ _ _ _ _ _ _ Hdocs' Hw).
  f_equal.
  assert (Hnd' : NoDup listing'.*1) by (rewrite Hperm; exact Hnd).
  pose proof (Forall2_length _ _ _ Hdocs) as Hlen.
  pose proof (Forall2_length _ _ _ Hdocs') as Hlen'.
  apply map_eq. intros name.
  destruct (decide (name ∈ listing.*1)) as [Hin | Hout].
  - apply list_elem_of_fmap in Hin as ([n e] & -> & Hin). cbn [fst].
    destruct (processed_lookup _ _ _ _ _ _ _ _ _ _ Hdocs Hin)
      as (d & Hd & Hz).
    rewrite <- Hperm in Hin.
    destruct (processed_lookup _ _ _ _ _ _ _ _ _ _ Hdocs' Hin)
      as (d' & Hd' & Hz').
    rewrite (processed_functional _ _ _ _ _ _ _ _ _ Hd' Hd) in Hz'.
    rewrite (lookup_writes _ n d), (lookup_writes _ n d); trivial;
      rewrite fst_zip by (rewrite length_fmap; lia); assumption.
  - rewrite !lookup_writes_other; [reflexivity | |].
    + intros Hin. apply Hout. eapply zip_fst_subseteq. exact Hin.
    + intros Hin. apply Hout. rewrite <- Hperm.
      eapply zip_fst_subseteq. exact Hin.
Qed.

End NotebookMore.

(** ** The writer cell *)

(** X14.  On any two lists, not only the loader's: the writer cell writes
    the documents under the names at the same positions, up to the first
    name whose file cannot be opened for writing.  It ends without an
    exception when that covers every document; otherwise it stops with
    [OSError] at the file that cannot be opened, or with [IndexError]
    when every file could be opened and the names have run out. *)
Theorem writer_needs_names writable st out :
  writer writable st out
  = (foldl write out
       (zip (writable_prefix writable (file_names st)) (list_documents st)),
     if (length (list_documents st)
         <=? length (writable_prefix writable (file_names st)))%nat
     then Ok ()
     else if (length (writable_prefix writable (file_names st))
              <? length (file_names st))%nat
          then Raise OSError
          else Raise IndexError).
Proof.
  rewrite writer_closed. unfold writer_outcome. reflexivity.
Qed.

(** X15.  Running the writer cell a second time, when the first run has
    ended without an exception, ends without an exception too and changes
    nothing. *)
Theorem writer_twice writable st out out' :
  writer writable st out = (out', Ok ()) ->
  writer writable st out' = (out', Ok ()).
Proof.
  intros H. apply writer_ok in H as (Hlen & Hw & ->).
  rewrite (writer_aligned _ _ _ Hlen Hw), writes_twice. reflexivity.
Qed.

(** ** The two parses *)

Lemma fold_chunks (chunks : list Span) : forall acc,
  fold_left (fun list_element chunk => list_element ++ [SPACE] ++ text chunk)
    chunks acc
  = acc ++ concat (map (fun chunk => SPACE :: text chunk) chunks).
Proof.
  induction chunks as [|c chunks IH]; intros acc; cbn [fold_left map concat].
  - rewrite app_nil_r. reflexivity.
  - rewrite IH, <- app_assoc. reflexivity.
Qed.

Lemma extract_nouns_short en_core_web_sm s :
  len s <= 6000000 ->
  extract_nouns en_core_web_sm s
  = Ok (concat (map (fun chunk => SPACE :: text chunk)
                  (noun_chunks (en_core_web_sm s)))).
Proof.
  intros H. unfold extract_nouns, call.
  cbn [nlp set_max_length en_core_web_sm_load max_length analyse].
  apply N.ltb_ge in H. rewrite H. cbn [mbind result_bind mret result_ret].
  rewrite fold_chunks. reflexivity.
Qed.

Lemma extract_nouns_long en_core_web_sm s :
  6000000 < len s -> extract_nouns en_core_web_sm s = Raise ValueError.
Proof.
  intros H. unfold extract_nouns, call.
  cbn [nlp set_max_length en_core_web_sm_load max_length analyse].
  apply N.ltb_lt in H. rewrite H. reflexivity.
Qed.

Lemma lemmaspacy_short en_core_web_sm s :
  len s <= 60000000 ->
  lemmaspacy en_core_web_sm s
  = Ok (join [SPACE] (map lemma_ (doc_tokens (en_core_web_sm s)))).
Proof.
  intros H. unfold lemmaspacy, call.
  cbn [set_max_length en_core_web_sm_load max_length analyse].
  apply N.ltb_ge in H. rewrite H. reflexivity.
Qed.

Lemma lemmaspacy_ok en_core_web_sm s lem :
  lemmaspacy en_core_web_sm s = Ok lem ->
  len s <= 60000000
  /\ lem = join [SPACE] (map lemma_ (doc_tokens (en_core_web_sm s))).
Proof.
  destruct (N.le_gt_cases (len s) 60000000) as [Hle | Hgt].
  - rewrite lemmaspacy_short by exact Hle. intros H. inversion H.
    split; [exact Hle | reflexivity].
  - rewrite lemmaspacy_too_long by exact Hgt. discriminate.
Qed.

Section ProcessMore.
Variables is_word is_space is_digit : char -> bool.
Variable stopwords : list str.
Variable lower : str -> str.
Variable en_core_web_sm : str -> Doc.

(** X16.  The text kept for a document is made of the noun chunks of the
    second parse, which reads the lemmas of the first parse joined by
    single spaces; every chunk is preceded by a space, so that the text
    is empty when there is no chunk and begins with a space
    otherwise. *)
Theorem process_text raw d :
  process is_word is_space is_digit stopwords lower en_core_web_sm raw
  = Ok d ->
  let lemmas :=
    join [SPACE]
      (map lemma_
         (doc_tokens
            (en_core_web_sm
               (clean is_word is_space is_digit stopwords (lower raw))))) in
  d = concat (map (fun chunk => SPACE :: text chunk)
                (noun_chunks (en_core_web_sm lemmas)))
  /\ (d = [] <-> noun_chunks (en_core_web_sm lemmas) = [])
  /\ (d <> [] -> head d = Some SPACE).
Proof.
  unfold process. cbv zeta.
  destruct (lemmaspacy en_core_web_sm
              (clean is_word is_space is_digit stopwords (lower raw)))
    as [lem|x] eqn:E; [|discriminate].
  apply lemmaspacy_ok in E as [_ <-].
  cbn [mbind result_bind].
  destruct (N.le_gt_cases (len lem) 6000000) as [Hle | Hgt].
  - rewrite extract_nouns_short by exact Hle.
    intros H. inversion H; subst d. clear H.
    split; [reflexivity|].
    destruct (noun_chunks (en_core_web_sm lem)) as [|c chunks];
      cbn [map concat app head].
    + split; [split; reflexivity | intros H; contradiction].
    + split; [split; discriminate | reflexivity].
  - rewrite extract_nouns_long by exact Hgt. discriminate.
Qed.

(** X17.  The lemmatizer accepts up to 60,000,000 characters, but the
    second parse uses the global pipeline, whose ceiling is 6,000,000:
    a document whose lemmatized text is longer than that passes the
    lemmatizer and fails in the noun extraction, with the same
    exception. *)
Theorem process_second_ceiling raw lem :
  lemmaspacy en_core_web_sm
    (clean is_word is_space is_digit stopwords (lower raw)) = Ok lem ->
  6000000 < len lem ->
  process is_word is_space is_digit stopwords lower en_core_web_sm raw
  = Raise ValueError.
Proof.
  intros Hlem Hlong. unfold process. cbv zeta. rewrite Hlem.
  cbn [mbind result_bind]. apply extract_nouns_long. exact Hlong.
Qed.

Hypothesis U : unicode_laws is_word is_space is_digit.
Hypothesis stopwords_fine : stopwords_ok stopwords = true.

(** X18.  Since the cleaner never makes a text longer, the lemmatizer
    accepts the cleaned text of every file whose lower-cased text has at
    most 60,000,000 characters. *)
Theorem lemmatizer_accepts raw :
  len (lower raw) <= 60000000 ->
  lemmaspacy en_core_web_sm
    (clean is_word is_space is_digit stopwords (lower raw))
  = Ok (join [SPACE]
          (map lemma_
             (doc_tokens
                (en_core_web_sm
                   (clean is_word is_space is_digit stopwords
                      (lower raw)))))).
Proof.
  intros H. apply lemmaspacy_short.
  pose proof (clean_length _ _ _ U _ stopwords_fine (lower raw)) as Hc.
  unfold len in *. lia.
Qed.
End ProcessMore.

(** ** The loops on sample directories *)

Lemma sample_names_differ : NoDup sample_listing.*1.
Proof. apply (bool_decide_unpack _). vm_compute. exact I. Qed.

Lemma toy_writer_sample :
  writer writable_dir sample_cells ∅ = (sample_output, Ok ()).
Proof. vm_compute. reflexivity. Qed.


Lemma loader_outcome_witness :
  Forall2 (processed latin1_word latin1_space latin1_digit nltk_english
             toy_lower toy_model)
    (take (length (list_documents broken_cells)) broken_listing)
    (list_documents broken_cells)
  /\ file_names broken_cells `prefix_of` broken_listing.*1
  /\ (length (list_documents broken_cells) <= length (file_names broken_cells)
      <= S (length (list_documents broken_cells)))%nat
  /\ (Raise UnicodeDecodeError = Ok ()
      <-> length (list_documents broken_cells) = length broken_listing).
Proof.
  apply (loader_outcome latin1_word latin1_space latin1_digit nltk_english
           toy_lower toy_model broken_listing broken_cells
           (Raise UnicodeDecodeError)).
  exact toy_loader_broken.
Defined.

Lemma writer_after_loader_witness :
  writer writable_dir broken_cells ∅
  = (foldl write ∅
       (zip (writable_prefix writable_dir broken_listing.*1)
          (list_documents broken_cells)),
     if (length (list_documents broken_cells)
         <=? length (writable_prefix writable_dir broken_listing.*1))%nat
     then Ok () else Raise OSError).
Proof.
  apply (writer_after_loader latin1_word latin1_space latin1_digit
           nltk_english toy_lower toy_model writable_dir broken_listing
           broken_cells (Raise UnicodeDecodeError) ∅).
  exact toy_loader_broken.
Defined.

Lemma notebook_files_witness :
  (forall name e, (name, e) ∈ sample_listing ->
     exists d, processed latin1_word latin1_space latin1_digit nltk_english
                 toy_lower toy_model (name, e) d
               /\ sample_output !! name = Some d)
  /\ (forall name, name ∉ sample_listing.*1 ->
        sample_output !! name = (∅ : gmap string str) !! name).
Proof.
  apply (notebook_files latin1_word latin1_space latin1_digit nltk_english
           toy_lower toy_model writable_dir sample_listing ∅ sample_output).
  - exact toy_notebook_sample.
  - exact sample_names_differ.
Defined.

Lemma listing_order_irrelevant_witness :
  toy_notebook (reverse sample_listing) ∅ = (sample_output, Ok ()).
Proof.
  apply (listing_order_irrelevant latin1_word latin1_space latin1_digit
           nltk_english toy_lower toy_model writable_dir sample_listing
           (reverse sample_listing) ∅ sample_output).
  - exact toy_notebook_sample.
  - apply reverse_Permutation.
  - exact sample_names_differ.
Defined.


Lemma writer_twice_witness :
  writer writable_dir sample_cells sample_output = (sample_output, Ok ()).
Proof.
  apply (writer_twice writable_dir sample_cells ∅ sample_output).
  exact toy_writer_sample.
Defined.

Lemma process_text_witness :
  let lemmas :=
    join [SPACE]
      (map lemma_
         (doc_tokens
            (toy_model
               (clean latin1_word latin1_space latin1_digit nltk_english
                  (toy_lower (py "The Plants are Growing rapidly in 2021."))))))
  in
  py " plants growing rapidly"
  = concat (map (fun chunk => SPACE :: text chunk)
              (noun_chunks (toy_model lemmas)))
  /\ (py " plants growing rapidly" = []
      <-> noun_chunks (toy_model lemmas) = [])
  /\ (py " plants growing rapidly" <> []
      -> head (py " plants growing rapidly") = Some SPACE).
Proof.
  apply (process_text latin1_word latin1_space latin1_digit nltk_english
           toy_lower toy_model (py "The Plants are Growing rapidly in 2021.")
           (py " plants growing rapidly")).
  vm_compute. reflexivity.
Defined.

Lemma lemmatizer_accepts_witness :
  lemmaspacy toy_model
    (clean latin1_word latin1_space latin1_digit nltk_english
       (toy_lower (py "The Plants are Growing rapidly in 2021.")))
  = Ok (join [SPACE]
          (map lemma_
             (doc_tokens
                (toy_model
                   (clean latin1_word latin1_space latin1_digit nltk_english
                      (toy_lower
                         (py "The Plants are Growing rapidly in 2021."))))))).
Proof.
  apply (lemmatizer_accepts latin1_word latin1_space latin1_digit nltk_english
           toy_lower toy_model latin1_laws nltk_english_ok).
  apply N.leb_le. vm_compute. reflexivity.
Defined.

(** *** A text between the two ceilings *)

Lemma toy_model_word w :
  w <> [] -> all (fun c => negb (c =? SPACE)) w ->
  runs (fun c => negb (c =? SPACE)) false w = [w].
Proof.
  intros Hn Hw.
  apply (runs_join (fun c => negb (c =? SPACE)) SPACE eq_refl [w]).
  constructor; [split; assumption | constructor].
Qed.

Lemma toy_lemmaspacy_word w :
  w <> [] -> all (fun c => negb (c =? SPACE)) w -> len w <= 60000000 ->
  lemmaspacy toy_model w = Ok w.
Proof.
  intros Hn Hw Hlen. rewrite lemmaspacy_short by exact Hlen.
  unfold toy_model. cbn [doc_tokens]. rewrite (toy_model_word w Hn Hw).
  reflexivity.
Qed.

Lemma length_mid_text : length mid_text = N.to_nat 6000001.
Proof. unfold mid_text. apply length_replicate. Qed.

Lemma len_mid_text : len mid_text = 6000001.
Proof. unfold len. rewrite length_mid_text. apply N2Nat.id. Qed.

Lemma mid_text_letters : all ascii_letter mid_text.
Proof. unfold mid_text. apply Forall_replicate. reflexivity. Qed.

Lemma mid_text_no_space : all (fun c => negb (c =? SPACE)) mid_text.
Proof. unfold mid_text. apply Forall_replicate. reflexivity. Qed.

Lemma mid_text_long : (3 <= length mid_text)%nat.
Proof.
  rewrite length_mid_text. apply Nat2Z.inj_le. rewrite N_nat_Z.
  discriminate.
Qed.

Lemma mid_text_not_nil : mid_text <> [].
Proof.
  intros H. pose proof mid_text_long as Hl. rewrite H in Hl.
  cbn [length] in Hl. lia.
Qed.

Lemma mid_text_no_stopword : ~ In mid_text nltk_english.
Proof.
  intros H. apply nltk_english_lengths in H.
  rewrite length_mid_text in H.
  apply Nat2Z.inj_le in H. rewrite N_nat_Z in H. exact (H eq_refl).
Qed.

Lemma toy_lower_mid_text : toy_lower mid_text = mid_text.
Proof. unfold toy_lower, mid_text. apply map_replicate. Qed.

Lemma clean_mid_text :
  clean latin1_word latin1_space latin1_digit nltk_english mid_text
  = mid_text.
Proof.
  exact (clean_word latin1_word latin1_space latin1_digit nltk_english
           latin1_laws nltk_english_ok mid_text mid_text_letters
           mid_text_long mid_text_no_stopword).
Qed.

Lemma toy_lemmaspacy_mid_text :
  lemmaspacy toy_model
    (clean latin1_word latin1_space latin1_digit nltk_english
       (toy_lower mid_text)) = Ok mid_text.
Proof.
  rewrite toy_lower_mid_text, clean_mid_text.
  apply toy_lemmaspacy_word.
  - exact mid_text_not_nil.
  - exact mid_text_no_space.
  - rewrite len_mid_text. apply N.leb_le. reflexivity.
Qed.

Lemma mid_text_too_long : 6000000 < len mid_text.
Proof. rewrite len_mid_text. reflexivity. Qed.

Lemma process_second_ceiling_witness :
  process latin1_word latin1_space latin1_digit nltk_english toy_lower
    toy_model mid_text = Raise ValueError.
Proof.
  exact (process_second_ceiling latin1_word latin1_space latin1_digit
           nltk_english toy_lower toy_model mid_text mid_text
           toy_lemmaspacy_mid_text mid_text_too_long).
Defined.

(** * Parts of the patterns that never take part *)

Section OneCharacter.
Variable is_word : char -> bool.

Lemma match_chr p prev s :
  match_at is_word (Chr p) prev s false
  = match s with
    | c :: _ => if p c then Some 1%nat else None
    | [] => None
    end.
Proof.
  unfold match_at. destruct s as [|c s]; [reflexivity|].
  cbn [run]. destruct (p c); reflexivity.
Qed.

Lemma sub_chr_map p x : forall s prev,
  sub_from is_word (Chr p) [x] prev s 0
  = map (fun c => if p c then x else c) s.
Proof.
  induction s as [|c s IH]; intros prev.
  - rewrite sub_from_nomatch; [reflexivity | apply match_chr].
  - cbn [map]. destruct (p c) eqn:E.
    + rewrite (sub_from_match _ _ _ _ _ 0%nat).
      * cbn [app]. f_equal. apply IH.
      * rewrite match_chr, E. reflexivity.
    + rewrite sub_from_nomatch; [f_equal; apply IH|].
      rewrite match_chr, E. reflexivity.
Qed.
End OneCharacter.

Lemma forallb_all p (s : str) : all p s -> forallb p s = true.
Proof.
  intros H. apply forallb_forall. apply List.Forall_forall. exact H.
Qed.

Lemma live_stopwords_ok stopwords :
  stopwords_ok stopwords = true -> live_stopwords stopwords <> [] ->
  stopwords_ok (live_stopwords stopwords) = true.
Proof.
  unfold stopwords_ok. intros H Hlive.
  apply andb_true_iff in H as [_ H]. apply andb_true_iff. split.
  - apply negb_true_iff, bool_decide_eq_false. exact Hlive.
  - apply forallb_forall. intros w Hw.
    apply filter_In in Hw as [Hw _].
    rewrite forallb_forall in H. apply H, Hw.
Qed.

Lemma kept_live stopwords w :
  all ascii_letter w ->
  kept (live_stopwords stopwords) w = kept stopwords w.
Proof.
  intros Hw. unfold kept, is_stopword.
  destruct (short w) eqn:Es; [reflexivity|]. cbn [negb andb]. f_equal.
  apply eq_iff_eq_true. rewrite !mem_In. unfold live_stopwords.
  rewrite filter_In. split; [intros [H _]; exact H|].
  intros H. split; [exact H|].
  rewrite (forallb_all _ _ Hw), Es. reflexivity.
Qed.

Section DeadParts.
Variables is_word is_space is_digit : char -> bool.
Variable stopwords : list str.
Hypothesis U : unicode_laws is_word is_space is_digit.
Hypothesis stopwords_fine : stopwords_ok stopwords = true.

(** X19.  In the first pattern of [clean], [(\W| +)], the alternative
    for runs of spaces never takes part, since a space is a non-word
    character: the substitution replaces every non-word character by
    one space, as it does with [\W] alone, so that it keeps the length
    of the text and collapses nothing. *)
Theorem nonword_step_keeps_length s :
  re_sub is_word (re_nonword is_word) [SPACE] s = blank_non_word is_word s
  /\ re_sub is_word (Chr (non_word is_word)) [SPACE] s
     = blank_non_word is_word s
  /\ length (re_sub is_word (re_nonword is_word) [SPACE] s) = length s.
Proof.
  assert (H : re_sub is_word (re_nonword is_word) [SPACE] s
              = blank_non_word is_word s).
  { unfold re_sub. rewrite (sub_nonword_map _ _ _ U). reflexivity. }
  split; [exact H|]. split.
  - unfold re_sub. rewrite sub_chr_map. unfold blank_non_word, non_word.
    apply map_ext. intros c. destruct (is_word c); reflexivity.
  - rewrite H. unfold blank_non_word. apply length_map.
Qed.

(** X20.  Only the stopwords that are made of three or more ASCII
    letters have an effect: when there is one, [clean] gives the same
    result with the others (those with an apostrophe, and those of one
    or two letters) taken off the list. *)
Theorem dead_stopwords s :
  live_stopwords stopwords <> [] ->
  clean is_word is_space is_digit (live_stopwords stopwords) s
  = clean is_word is_space is_digit stopwords s.
Proof.
  intros Hlive.
  rewrite (clean_closed _ _ _ U _ stopwords_fine).
  rewrite (clean_closed _ _ _ U _
             (live_stopwords_ok _ stopwords_fine Hlive)).
  rewrite (front_letter_words _ _ _ U). f_equal.
  apply List.filter_ext_in. intros w Hw. apply kept_live.
  pose proof (runs_shape ascii_letter
                (replace_char E_ACUTE LETTER_E
                   (drop_digits is_digit (blank_non_word is_word s)))
                false) as Hshape.
  rewrite List.Forall_forall in Hshape. apply (Hshape w Hw).
Qed.
End DeadParts.

Lemma nonword_step_keeps_length_witness :
  re_sub latin1_word (re_nonword latin1_word) [SPACE] (py "a  b,, c_d")
  = blank_non_word latin1_word (py "a  b,, c_d")
  /\ re_sub latin1_word (Chr (non_word latin1_word)) [SPACE] (py "a  b,, c_d")
     = blank_non_word latin1_word (py "a  b,, c_d")
  /\ length (re_sub latin1_word (re_nonword latin1_word) [SPACE]
               (py "a  b,, c_d"))
     = length (py "a  b,, c_d").
Proof.
  apply (nonword_step_keeps_length latin1_word latin1_space latin1_digit
           latin1_laws).
Defined.

Lemma dead_stopwords_witness :
  clean latin1_word latin1_space latin1_digit (live_stopwords nltk_english)
    (py "You're the one who doesn't see plants")
  = clean latin1_word latin1_space latin1_digit nltk_english
      (py "You're the one who doesn't see plants").
Proof.
  apply (dead_stopwords latin1_word latin1_space latin1_digit nltk_english
           latin1_laws nltk_english_ok).
  vm_compute. discriminate.
Defined.
